(** * Actor and critic networks of [ac_nets.py]: a shallow embedding

    The module wraps a three-layer fully connected network ([NeuralNet]) in
    two trainers, [CriticNetwork] and [ActorNetwork].  Tensors are modelled
    the way torch stores them: a shape and the row-major list of entries.
    Entries are real numbers: float32 rounding, infinities and NaN are not
    represented, so every statement below is about the exact arithmetic the
    code approximates.  What torch does on purpose with the float32
    epsilon, clamping probabilities before taking their logarithm, is part
    of the model.  What torch raises as an exception is an [Err]
    result, together with the trainer state as it is when it is raised. *)

From Stdlib Require String.
Import String.StringSyntax.
Delimit Scope string_scope with string.
From Stdlib Require Import Reals List ZArith Lia Lra Bool Arith.
From Stdlib Require Import FunctionalExtensionality.
Import ListNotations.
Open Scope R_scope.

Set Implicit Arguments.

(** ** Exceptions *)

Inductive error : Type :=
| ShapeMismatch        (* RuntimeError: sizes do not match / cannot broadcast *)
| IndexOutOfRange      (* class value or sample outside [0, num_classes) *)
| InvalidDistribution  (* ValueError: probs violate the simplex constraint *)
| InvalidArgument.     (* RuntimeError: one_hot cannot infer the classes *)

Inductive result (A : Type) : Type :=
| Ok (a : A)
| Err (e : error).
Arguments Ok {A} a.
Arguments Err {A} e.

Definition bind {A B} (r : result A) (k : A -> result B) : result B :=
  match r with
  | Ok a => k a
  | Err e => Err e
  end.

Notation "'do' x <- c ; k" := (bind c (fun x => k))
  (at level 60, x name, c at next level, right associativity).

Definition is_ok {A} (r : result A) : bool :=
  match r with Ok _ => true | Err _ => false end.

(** ** Lists of numbers *)

Definition Rsum (l : list R) : R := fold_right Rplus 0 l.

Fixpoint zip_with {A B C} (f : A -> B -> C) (u : list A) (v : list B) : list C :=
  match u, v with
  | a :: u', b :: v' => f a b :: zip_with f u' v'
  | _, _ => []
  end.

Definition dot (u v : list R) : R := Rsum (zip_with Rmult u v).

(** [chunk n k l] cuts [l] into [n] consecutive pieces of [k] entries. *)
Fixpoint chunk {A} (n k : nat) (l : list A) : list (list A) :=
  match n with
  | O => []
  | S n' => firstn k l :: chunk n' k (skipn k l)
  end.

(** ** Tensors *)

Record tensor (A : Type) : Type := mkTensor {
  shape : list nat;
  data : list A
}.

Definition numel (s : list nat) : nat := fold_right Nat.mul 1%nat s.

Definition wf_tensor {A} (t : tensor A) : Prop :=
  length (data t) = numel (shape t).

(** The slices along the last dimension, in row-major order. *)
Definition rows {A} (t : tensor A) : list (list A) :=
  chunk (numel (removelast (shape t))) (last (shape t) 1%nat) (data t).

Definition of_rows {A} (batch : list nat) (k : nat) (rs : list (list A)) : tensor A :=
  {| shape := batch ++ [k]; data := concat rs |}.

Definition tmap {A B} (f : A -> B) (t : tensor A) : tensor B :=
  {| shape := shape t; data := map f (data t) |}.

(** [t.unsqueeze(-1)] *)
Definition unsqueeze_last {A} (t : tensor A) : tensor A :=
  {| shape := shape t ++ [1%nat]; data := data t |}.

(** [t.squeeze(-1)]: drops the last dimension only when its size is 1. *)
Definition squeeze_last {A} (t : tensor A) : tensor A :=
  match shape t with
  | [] => t
  | _ :: _ =>
      if Nat.eqb (last (shape t) 0%nat) 1
      then {| shape := removelast (shape t); data := data t |}
      else t
  end.

(** ** Broadcasting *)

Fixpoint broadcast_rev (a b : list nat) : option (list nat) :=
  match a, b with
  | [], _ => Some b
  | _, [] => Some a
  | x :: a', y :: b' =>
      if Nat.eqb x y then option_map (cons x) (broadcast_rev a' b')
      else if Nat.eqb x 1 then option_map (cons y) (broadcast_rev a' b')
      else if Nat.eqb y 1 then option_map (cons x) (broadcast_rev a' b')
      else None
  end.

Definition broadcast_shapes (a b : list nat) : option (list nat) :=
  option_map (@rev nat) (broadcast_rev (rev a) (rev b)).

Definition pad_shape (rank : nat) (s : list nat) : list nat :=
  repeat 1%nat (rank - length s) ++ s.

Fixpoint expand_data {A} (src tgt : list nat) (d : list A) : list A :=
  match src, tgt with
  | x :: src', y :: tgt' =>
      let blocks := map (expand_data src' tgt') (chunk x (numel src') d) in
      if Nat.eqb x y then concat blocks
      else concat (repeat (concat blocks) y)
  | _, _ => d
  end.

Definition expand {A} (t : tensor A) (s : list nat) : tensor A :=
  {| shape := s; data := expand_data (pad_shape (length s) (shape t)) s (data t) |}.

Definition broadcast_op (f : R -> R -> R) (a b : tensor R) : result (tensor R) :=
  match broadcast_shapes (shape a) (shape b) with
  | None => Err ShapeMismatch
  | Some s => Ok {| shape := s;
                    data := zip_with f (data (expand a s)) (data (expand b s)) |}
  end.

(** [t.sum(-1, keepdims=True)] *)
Definition sum_last_keepdims (t : tensor R) : tensor R :=
  match shape t with
  | [] => t
  | _ :: _ => {| shape := removelast (shape t) ++ [1%nat];
                 data := map Rsum (rows t) |}
  end.

(** [t.mean()] over all entries.  The mean of an empty tensor, a NaN in
    torch, has no counterpart here: the quotient below is only meaningful
    for a non-empty batch. *)
Definition tmean (t : tensor R) : R := Rsum (data t) / INR (length (data t)).

(** ** NeuralNet *)

Definition hidden_size : nat := 64.

Record Linear : Type := mkLinear {
  in_features : nat;
  out_features : nat;
  weight : list (list R);   (* out_features rows of in_features entries *)
  bias : list R
}.

Definition linear_row (L : Linear) (x : list R) : list R :=
  map (fun j => dot (nth j (weight L) []) x + nth j (bias L) 0)
      (seq 0 (out_features L)).

Definition linear (L : Linear) (t : tensor R) : result (tensor R) :=
  match shape t with
  | [] => Err ShapeMismatch
  | _ :: _ =>
      if Nat.eqb (last (shape t) 0%nat) (in_features L)
      then Ok (of_rows (removelast (shape t)) (out_features L)
                       (map (linear_row L) (rows t)))
      else Err ShapeMismatch
  end.

Definition relu (t : tensor R) : tensor R := tmap (Rmax 0) t.

Definition softmax_row (x : list R) : list R :=
  map (fun xi => exp xi / Rsum (map exp x)) x.

(** [F.softmax(t, -1)] *)
Definition softmax (t : tensor R) : tensor R :=
  {| shape := shape t; data := concat (map softmax_row (rows t)) |}.

(** The trainable parameters of the three layers. *)
Record params : Type := mkParams {
  w1 : list (list R); b1 : list R;
  w2 : list (list R); b2 : list R;
  w3 : list (list R); b3 : list R
}.

Record NeuralNet : Type := mkNeuralNet {
  state_dim : nat;
  action_dim : nat;
  b_actor : bool;
  theta : params
}.

Definition l1 (net : NeuralNet) : Linear :=
  mkLinear (state_dim net) hidden_size (w1 (theta net)) (b1 (theta net)).
Definition l2 (net : NeuralNet) : Linear :=
  mkLinear hidden_size hidden_size (w2 (theta net)) (b2 (theta net)).
Definition l3 (net : NeuralNet) : Linear :=
  mkLinear hidden_size (action_dim net) (w3 (theta net)) (b3 (theta net)).

(** The last layer's raw scores. *)
Definition raw_scores (net : NeuralNet) (s : tensor R) : result (tensor R) :=
  do o1 <- linear (l1 net) s;
  do o2 <- linear (l2 net) (relu o1);
  linear (l3 net) (relu o2).

Definition forward (net : NeuralNet) (s : tensor R) : result (tensor R) :=
  do o1 <- linear (l1 net) s;
  let out := relu o1 in
  do o2 <- linear (l2 net) out;
  let out := relu o2 in
  if b_actor net
  then (do o3 <- linear (l3 net) out; Ok (softmax o3))
  else linear (l3 net) out.

(** A row of the probability simplex. *)
Definition is_distribution (row : list R) : Prop :=
  Forall (fun p => 0 <= p) row /\ Rsum row = 1.

(** ** Integer and float tensors

    The [act] argument of the update methods is a long tensor of action
    indices or a float tensor; the code converts as needed. *)

Inductive any_tensor : Type :=
| LongT (t : tensor Z)
| FloatT (t : tensor R).

(** Truncation toward zero, the conversion [.long()] applies to a float. *)
Definition Rtrunc (r : R) : Z :=
  if Rle_dec 0 r then Int_part r else (- Int_part (- r))%Z.

Definition any_squeeze_last (a : any_tensor) : any_tensor :=
  match a with
  | LongT t => LongT (squeeze_last t)
  | FloatT t => FloatT (squeeze_last t)
  end.

Definition long (a : any_tensor) : tensor Z :=
  match a with
  | LongT t => t
  | FloatT t => tmap Rtrunc t
  end.

Definition float (a : any_tensor) : tensor R :=
  match a with
  | LongT t => tmap IZR t
  | FloatT t => t
  end.

Definition any_shape (a : any_tensor) : list nat :=
  match a with
  | LongT t => shape t
  | FloatT t => shape t
  end.

Definition in_range (n : nat) (k : Z) : bool :=
  (0 <=? k)%Z && (k <? Z.of_nat n)%Z.

Definition one_hot_row (n : nat) (k : Z) : list Z :=
  map (fun j => if (Z.of_nat j =? k)%Z then 1%Z else 0%Z) (seq 0 n).

(** [F.one_hot(t, num_classes)] on the host: class values are checked
    against [num_classes] before the encoding is built. *)
Definition one_hot (t : tensor Z) (num_classes : nat) : result (tensor Z) :=
  if Nat.eqb (numel (shape t)) 0
  then (if Nat.eqb num_classes 0 then Err InvalidArgument
        else Ok {| shape := shape t ++ [num_classes]; data := [] |})
  else if forallb (in_range num_classes) (data t)
  then Ok {| shape := shape t ++ [num_classes];
             data := concat (map (one_hot_row num_classes) (data t)) |}
  else Err IndexOutOfRange.

(** [nn.MSELoss()(input, target)]: operands are broadcast, the squared
    differences averaged. *)
Definition mse_loss (input target : tensor R) : result R :=
  do d <- broadcast_op (fun a b => (a - b) ^ 2) input target;
  Ok (tmean d).

(** ** torch.distributions.Categorical *)

Record Categorical : Type := mkCategorical {
  probs : tensor R
}.

Definition Rleb (a b : R) : bool := if Rle_dec a b then true else false.
Definition Rltb (a b : R) : bool := if Rlt_dec a b then true else false.

(** The simplex constraint torch validates: entries non-negative, the row
    summing to 1 within 1e-6. *)
Definition simplex_check (row : list R) : bool :=
  forallb (Rleb 0) row && Rltb (Rabs (Rsum row - 1)) (1 / 1000000).

Definition normalize_row (row : list R) : list R :=
  map (fun p => p / Rsum row) row.

(** [Categorical(probs=p)]: [p] is normalised along the last dimension and
    validated. *)
Definition Categorical_init (p : tensor R) : result Categorical :=
  match shape p with
  | [] => Err InvalidDistribution
  | _ :: _ =>
      let q := {| shape := shape p; data := concat (map normalize_row (rows p)) |} in
      if forallb simplex_check (rows q)
      then Ok (mkCategorical q)
      else Err InvalidDistribution
  end.

Definition batch_shape (d : Categorical) : list nat := removelast (shape (probs d)).
Definition num_events (d : Categorical) : nat := last (shape (probs d)) 0%nat.

Definition is_integral (r : R) : bool :=
  if Req_dec_T (IZR (Rtrunc r)) r then true else false.

(** The support check of [log_prob]: integer values in [0, num_events - 1]. *)
Definition in_support (n : nat) (value : any_tensor) : bool :=
  match value with
  | LongT t => forallb (in_range n) (data t)
  | FloatT t => forallb (fun r => is_integral r && in_range n (Rtrunc r)) (data t)
  end.

(** Sizes compared from the right, as far as both shapes go. *)
Fixpoint broadcastable_rev (a b : list nat) : bool :=
  match a, b with
  | x :: a', y :: b' =>
      (Nat.eqb x 1 || Nat.eqb y 1 || Nat.eqb x y) && broadcastable_rev a' b'
  | _, _ => true
  end.

(** The machine epsilon of float32, [torch.finfo(torch.float32).eps]. *)
Definition float_eps : R := / 2 ^ 23.

(** [clamp_probs]: [probs.clamp(min=eps, max=1 - eps)]. *)
Definition clamp_probs (p : R) : R := Rmin (Rmax p float_eps) (1 - float_eps).

(** [dist.logits], which torch derives from the probabilities as
    [log(clamp_probs(probs))]. *)
Definition logits (d : Categorical) : tensor R :=
  tmap (fun p => ln (clamp_probs p)) (probs d).

(** [dist.log_prob(value)]: the entries of [logits] the values select. *)
Definition log_prob (d : Categorical) (value : any_tensor) : result (tensor R) :=
  if negb (broadcastable_rev (rev (any_shape value)) (rev (batch_shape d)))
  then Err ShapeMismatch
  else if negb (in_support (num_events d) value)
  then Err IndexOutOfRange
  else
    match broadcast_shapes (any_shape value) (batch_shape d) with
    | None => Err ShapeMismatch
    | Some s =>
        let idx := data (expand (long value) s) in
        let log_pmf := rows (expand (logits d) (s ++ [num_events d])) in
        Ok {| shape := s;
              data := zip_with (fun row k => nth (Z.to_nat k) row 0) log_pmf idx |}
    end.

Definition entropy_row (row : list R) : R :=
  - Rsum (map (fun p => ln p * p) row).

(** [dist.entropy()].  (torch forms the products with the clamped
    [logits]; the rows are taken with their own logarithms here.) *)
Definition entropy (d : Categorical) : tensor R :=
  {| shape := batch_shape d; data := map entropy_row (rows (probs d)) |}.

(** ** What torch and numpy provide

    Automatic differentiation, the Adam optimizer and the random generator
    are taken as an interface: the trainers only sequence them. *)

Class Backend : Type := {
  grads : Type;
  optim_state : Type;
  generator : Type;
  (* [Adam(net.parameters(), lr=lr)] *)
  Adam : params -> R -> optim_state;
  (* the gradient of a loss, given as a function of the parameters *)
  backward : (params -> result R) -> params -> grads;
  (* [optimizer.step()] on the stored gradients *)
  optim_step : optim_state -> params -> option grads -> params * optim_state;
  (* one draw of [torch.multinomial] from a row of probabilities *)
  multinomial : generator -> list R -> nat * generator
}.

(** numpy scalars, for the diagnostics: [np.inf] and the NaN that
    [np.mean] gives for an empty list. *)
Inductive np_float : Type :=
| Finite (r : R)
| PosInf
| NaN.

Definition np_mean (l : list R) : np_float :=
  match l with
  | [] => NaN
  | _ :: _ => Finite (Rsum l / INR (length l))
  end.

Definition with_theta (net : NeuralNet) (p : params) : NeuralNet :=
  mkNeuralNet (state_dim net) (action_dim net) (b_actor net) p.

(** The bounded loss history both trainers keep:
    [losses.append(get_loss); if len(losses) > 20: del losses[0]]. *)
Definition record_loss (losses : list R) (get_loss : R) : list R :=
  let losses := losses ++ [get_loss] in
  if Nat.ltb 20 (length losses) then tl losses else losses.

(** ** CriticNetwork *)

Module Critic.
Section WithBackend.
Context {B : Backend}.

Record CriticNetwork : Type := mkCritic {
  num_outs : nat;
  net : NeuralNet;
  grad : option grads;          (* the [.grad] buffers of [net.parameters()] *)
  optimizer : optim_state;
  cuda : bool;
  losses : list R;
  name : String.string;
  critic_loss : np_float
}.

(** [CriticNetwork(name, n_features, critic_actions, lr, cuda)]; [init] is
    the random initialisation of the layers. *)
Definition init (name : String.string) (n_features critic_actions : nat) (lr : R)
    (cuda : bool) (init : params) : CriticNetwork :=
  let net := mkNeuralNet n_features critic_actions false init in
  mkCritic critic_actions net None (Adam init lr) cuda [] name PosInf.

Definition run_main (self : CriticNetwork) (obs : tensor R) (grad : bool)
    : result (tensor R) * CriticNetwork :=
  if negb grad
  then (forward (net self) obs, self)
  else (forward (net self) obs, self).

(** [q_sel] of [batch_update]. *)
Definition q_sel (num_outs : nat) (act : any_tensor) (action_distribution : bool)
    : result (tensor R) :=
  if negb action_distribution
  then (do oh <- one_hot (long (any_squeeze_last act)) num_outs;
        Ok (float (LongT oh)))
  else Ok (float act).

(** [dot_prd] of [batch_update]. *)
Definition dot_prd (Q q_sel : tensor R) : result (tensor R) :=
  do prod <- broadcast_op Rmult Q q_sel;
  Ok (sum_last_keepdims prod).

(** The loss of [batch_update], lines 71 to 77, for a network [nn]. *)
Definition loss_of (num_outs : nat) (nn : NeuralNet) (obs : tensor R)
    (act : any_tensor) (target : tensor R) (action_distribution : bool) : result R :=
  do Q <- forward nn obs;
  do q_sel <- q_sel num_outs act action_distribution;
  do dot_prd <- dot_prd Q q_sel;
  mse_loss target dot_prd.

Definition zero_grad (self : CriticNetwork) : CriticNetwork :=
  mkCritic (num_outs self) (net self) None (optimizer self) (cuda self)
           (losses self) (name self) (critic_loss self).

Definition batch_update (self : CriticNetwork) (obs : tensor R) (act : any_tensor)
    (target : tensor R) (action_distribution : bool)
    : result unit * CriticNetwork :=
  let self := zero_grad self in
  match loss_of (num_outs self) (net self) obs act target action_distribution with
  | Err e => (Err e, self)
  | Ok loss =>
      (* loss.backward() *)
      let g := backward
                 (fun p => loss_of (num_outs self) (with_theta (net self) p)
                                   obs act target action_distribution)
                 (theta (net self)) in
      (* self.optimizer.step() *)
      let '(p, opt) := optim_step (optimizer self) (theta (net self)) (Some g) in
      let get_loss := if cuda self then loss else loss in
      let losses := record_loss (losses self) get_loss in
      (Ok tt,
       mkCritic (num_outs self) (with_theta (net self) p) (Some g) opt (cuda self)
                losses (name self) (np_mean losses))
  end.

(** A caller issuing update calls one after the other, going on after a
    failed one. *)
Record call : Type := mkCall {
  call_obs : tensor R;
  call_act : any_tensor;
  call_target : tensor R;
  call_distribution : bool
}.

Definition update (self : CriticNetwork) (c : call) : result unit * CriticNetwork :=
  batch_update self (call_obs c) (call_act c) (call_target c) (call_distribution c).

Fixpoint run_updates (self : CriticNetwork) (calls : list call)
    : list (result unit) * CriticNetwork :=
  match calls with
  | [] => ([], self)
  | c :: cs =>
      let '(r, self) := update self c in
      let '(rs, self) := run_updates self cs in
      (r :: rs, self)
  end.

(** The losses of the calls that succeed, in call order. *)
Fixpoint successful_losses (self : CriticNetwork) (calls : list call) : list R :=
  match calls with
  | [] => []
  | c :: cs =>
      let self' := snd (update self c) in
      match loss_of (num_outs self) (net self) (call_obs c) (call_act c)
                    (call_target c) (call_distribution c) with
      | Ok l => l :: successful_losses self' cs
      | Err _ => successful_losses self' cs
      end
  end.

End WithBackend.
End Critic.

(** ** ActorNetwork *)

Module Actor.
Section WithBackend.
Context {B : Backend}.

Record ActorNetwork : Type := mkActor {
  num_outs : nat;
  net : NeuralNet;
  grad : option grads;
  optimizer : optim_state;
  cuda : bool;
  beta : R;
  losses : list R;
  name : String.string;
  actor_loss : np_float
}.

Definition init (name : String.string) (n_features actor_actions : nat) (lr beta : R)
    (cuda : bool) (init : params) : ActorNetwork :=
  let net := mkNeuralNet n_features actor_actions true init in
  mkActor actor_actions net None (Adam init lr) cuda beta [] name PosInf.

(** One draw per row, the generator threaded through. *)
Fixpoint sample_rows (g : generator) (rs : list (list R)) : list Z * generator :=
  match rs with
  | [] => ([], g)
  | r :: rs' =>
      let '(k, g) := multinomial g r in
      let '(ks, g) := sample_rows g rs' in
      (Z.of_nat k :: ks, g)
  end.

(** [dist.sample()]: a long tensor of the distribution's batch shape. *)
Definition sample (d : Categorical) (g : generator) : tensor Z * generator :=
  let '(ks, g) := sample_rows g (rows (probs d)) in
  ({| shape := batch_shape d; data := ks |}, g).

Definition sample_action (self : ActorNetwork) (g : generator) (obs : tensor R)
    (grad : bool) : result (tensor Z) * generator :=
  let probs := if negb grad then forward (net self) obs
               else forward (net self) obs in
  match (do probs <- probs; Categorical_init probs) with
  | Err e => (Err e, g)
  | Ok dist =>
      let '(act, g) := sample dist g in
      (Ok act, g)
  end.

Definition action_distribution (self : ActorNetwork) (obs : tensor R) (grad : bool)
    : result (tensor R) * ActorNetwork :=
  if negb grad
  then (forward (net self) obs, self)
  else (forward (net self) obs, self).

(** [pg_loss] of [batch_update]. *)
Definition pg_loss (dist : Categorical) (act : any_tensor) (adv : tensor R)
    (action_distribution : bool) : result (tensor R) :=
  if action_distribution
  then Ok (tmap Ropp adv)
  else (do lp <- log_prob dist (any_squeeze_last act);
        let neglogp := unsqueeze_last (tmap Ropp lp) in
        broadcast_op Rmult adv neglogp).

(** The loss of [batch_update], lines 140 to 148, for a network [nn]. *)
Definition loss_of (beta : R) (nn : NeuralNet) (obs : tensor R) (act : any_tensor)
    (adv : tensor R) (action_distribution : bool) : result R :=
  do p <- forward nn obs;
  do dist <- Categorical_init p;
  do pg_loss <- pg_loss dist act adv action_distribution;
  let entropy := unsqueeze_last (entropy dist) in
  do l <- broadcast_op Rminus pg_loss (tmap (Rmult beta) entropy);
  Ok (tmean l).

Definition zero_grad (self : ActorNetwork) : ActorNetwork :=
  mkActor (num_outs self) (net self) None (optimizer self) (cuda self) (beta self)
          (losses self) (name self) (actor_loss self).

Definition batch_update (self : ActorNetwork) (obs : tensor R) (act : any_tensor)
    (adv : tensor R) (action_distribution : bool)
    : result unit * ActorNetwork :=
  let self := zero_grad self in
  match loss_of (beta self) (net self) obs act adv action_distribution with
  | Err e => (Err e, self)
  | Ok loss =>
      let g := backward
                 (fun p => loss_of (beta self) (with_theta (net self) p)
                                   obs act adv action_distribution)
                 (theta (net self)) in
      let '(p, opt) := optim_step (optimizer self) (theta (net self)) (Some g) in
      let get_loss := if cuda self then loss else loss in
      let losses := record_loss (losses self) get_loss in
      (Ok tt,
       mkActor (num_outs self) (with_theta (net self) p) (Some g) opt (cuda self)
               (beta self) losses (name self) (np_mean losses))
  end.

Record call : Type := mkCall {
  call_obs : tensor R;
  call_act : any_tensor;
  call_adv : tensor R;
  call_distribution : bool
}.

Definition update (self : ActorNetwork) (c : call) : result unit * ActorNetwork :=
  batch_update self (call_obs c) (call_act c) (call_adv c) (call_distribution c).

Fixpoint run_updates (self : ActorNetwork) (calls : list call)
    : list (result unit) * ActorNetwork :=
  match calls with
  | [] => ([], self)
  | c :: cs =>
      let '(r, self) := update self c in
      let '(rs, self) := run_updates self cs in
      (r :: rs, self)
  end.

Fixpoint successful_losses (self : ActorNetwork) (calls : list call) : list R :=
  match calls with
  | [] => []
  | c :: cs =>
      let self' := snd (update self c) in
      match loss_of (beta self) (net self) (call_obs c) (call_act c)
                    (call_adv c) (call_distribution c) with
      | Ok l => l :: successful_losses self' cs
      | Err _ => successful_losses self' cs
      end
  end.

End WithBackend.
End Actor.

(** ** Small concrete inputs

    A network with two features and a (1 x 2 x 2) observation batch, used
    to run the definitions. *)

Definition zero_params (n_features n_actions : nat) : params :=
  mkParams (repeat (repeat 0 n_features) hidden_size) (repeat 0 hidden_size)
           (repeat (repeat 0 hidden_size) hidden_size) (repeat 0 hidden_size)
           (repeat (repeat 0 hidden_size) n_actions) (repeat 0 n_actions).

Definition obs_122 : tensor R := mkTensor [1; 2; 2]%nat [1; 2; 3; 4].

(** A backend whose optimizer leaves the parameters where they are. *)
Definition idle_backend : Backend := {|
  grads := params;
  optim_state := unit;
  generator := unit;
  Adam := fun _ _ => tt;
  backward := fun _ p => p;
  optim_step := fun st p _ => (p, st);
  multinomial := fun g _ => (0%nat, g)
|}.

Definition count_ok {A} (rs : list (result A)) : nat :=
  length (filter is_ok rs).

(** The diagnostic a trainer shows once the successful losses are [tr]. *)
Definition diagnostic_of (tr : list R) : np_float :=
  match tr with
  | [] => PosInf
  | _ :: _ => np_mean (skipn (length tr - 20) tr)
  end.

Definition critic_232 : @Critic.CriticNetwork idle_backend :=
  Critic.init "critic"%string 2 3 (1 / 100) false (zero_params 2 3).

Definition actor_232 : @Actor.ActorNetwork idle_backend :=
  Actor.init "actor"%string 2 3 (1 / 100) (1 / 10) false (zero_params 2 3).

(** Two action indices for a (1 x 2) batch, the second one out of range
    for three outputs. *)
Definition act_bad : any_tensor := LongT (mkTensor [1; 2; 1]%nat [0; 5]%Z).

Definition idx_good : tensor Z := mkTensor [1; 2; 1]%nat [0; 2]%Z.

Definition act_good : any_tensor := LongT idx_good.

Definition target_121 : tensor R := mkTensor [1; 2; 1]%nat [1; 2].

(** An observation batch with three features, one too many for the
    networks above. *)
Definition obs_123 : tensor R := mkTensor [1; 2; 3]%nat [1; 2; 3; 4; 5; 6].

(** ** The per-example terms of the actor's loss, as the specification
    words them *)

(** Advantage times the negative logarithm of the clamped probability of
    the taken action, minus beta times the entropy of the example's
    distribution: the term the code computes. *)
Definition clamped_policy_gradient_term (beta a : R) (k : Z) (p : list R) : R :=
  a * (- ln (clamp_probs (nth (Z.to_nat k) p 0))) - beta * entropy_row p.

(** Advantage times the negative log-probability of the taken action,
    minus beta times the entropy of the example's distribution. *)
Definition policy_gradient_term (beta a : R) (k : Z) (p : list R) : R :=
  a * (- ln (nth (Z.to_nat k) p 0)) - beta * entropy_row p.

(** The negated advantage, minus beta times the entropy. *)
Definition negated_advantage_term (beta a : R) (p : list R) : R :=
  - a - beta * entropy_row p.

Fixpoint zip3_with {A B C D} (f : A -> B -> C -> D)
    (u : list A) (v : list B) (w : list C) : list D :=
  match u, v, w with
  | a :: u', b :: v', c :: w' => f a b c :: zip3_with f u' v' w'
  | _, _, _ => []
  end.

(** ** Consistent batch dimensions, as the specification words them *)

Fixpoint shape_eqb (a b : list nat) : bool :=
  match a, b with
  | [], [] => true
  | x :: a', y :: b' => Nat.eqb x y && shape_eqb a' b'
  | _, _ => false
  end.

(** Observations, actions and targets agree on every dimension but the
    last. *)
Definition batch_dims_consistent (obs : tensor R) (act : any_tensor)
    (target : tensor R) : bool :=
  shape_eqb (removelast (shape obs)) (removelast (any_shape act))
  && shape_eqb (removelast (shape obs)) (removelast (shape target)).

(** A single target for a batch of two examples. *)
Definition target_111 : tensor R := mkTensor [1; 1; 1]%nat [1].

(** Seven numbers in a row: not the shape of any batch used here. *)
Definition act_7 : any_tensor :=
  FloatT (mkTensor [7]%nat [1; 2; 3; 4; 5; 6; 7]).

(** ** What a trainer is built with

    The construction-time attributes: the optimizer is created over the
    network's parameters only, so nothing here is meant to change. *)

Definition critic_architecture {B : Backend} (c : Critic.CriticNetwork)
    : nat * nat * nat * bool * bool * String.string :=
  (Critic.num_outs c, state_dim (Critic.net c), action_dim (Critic.net c),
   b_actor (Critic.net c), Critic.cuda c, Critic.name c).

Definition actor_architecture {B : Backend} (a : Actor.ActorNetwork)
    : nat * nat * nat * bool * bool * R * String.string :=
  (Actor.num_outs a, state_dim (Actor.net a), action_dim (Actor.net a),
   b_actor (Actor.net a), Actor.cuda a, Actor.beta a, Actor.name a).

(** Selection weights for the two examples of [obs_122] over three
    outputs. *)
Definition w_123 : tensor R := mkTensor [1; 2; 3]%nat [1; 0; 0; 0; 1 / 2; 1 / 2].

(** A target given as one value in a tensor of rank one. *)
Definition target_1 : tensor R := mkTensor [1]%nat [5].

(** An actor whose last layer has zero weights and the biases
    (10000000, 0, 0): every observation gets the same, sharply peaked
    policy.  One observation, the action 1 taken, advantage 1, beta 0. *)
Definition peaked_params : params :=
  mkParams (repeat (repeat 0 2%nat) hidden_size) (repeat 0 hidden_size)
           (repeat (repeat 0 hidden_size) hidden_size) (repeat 0 hidden_size)
           (repeat (repeat 0 hidden_size) 3%nat) [10000000; 0; 0].

Definition actor_peaked : @Actor.ActorNetwork idle_backend :=
  Actor.init "actor"%string 2 3 (1 / 100) 0 false peaked_params.

Definition obs_112 : tensor R := mkTensor [1; 1; 2]%nat [1; 2].

Definition idx_1 : tensor Z := mkTensor [1; 1; 1]%nat [1]%Z.

Definition adv_1 : tensor R := mkTensor [1; 1; 1]%nat [1].

(** ** Whether the batch dimensions go together

    The shape three batch shapes broadcast to, when they do: observations
    against actions first, the targets against the result. *)

Definition batch_broadcast (bs ab tb : list nat) : option (list nat) :=
  match broadcast_shapes bs ab with
  | None => None
  | Some s => broadcast_shapes tb s
  end.

(** What a call returns once only the shapes can still stop it. *)
Definition shape_outcome (o : option (list nat)) : result unit :=
  match o with
  | Some _ => Ok tt
  | None => Err ShapeMismatch
  end.

(** * Properties *)

(** ** Lists, chunks and rows *)

Lemma chunk_length {A} (n k : nat) (l : list A) : length (chunk n k l) = n.
Proof.
  revert l; induction n as [|n IH]; intro l; simpl; [reflexivity|].
  now rewrite IH.
Qed.

Lemma chunk_concat {A} (k : nat) (rs : list (list A)) :
  Forall (fun r => length r = k) rs ->
  chunk (length rs) k (concat rs) = rs.
Proof.
  induction 1 as [|r rs Hr _ IH]; simpl; [reflexivity|].
  assert (Hf : firstn k (r ++ concat rs) = r).
  { rewrite <- Hr, firstn_app, firstn_all, Nat.sub_diag, firstn_O. apply app_nil_r. }
  assert (Hk : skipn k (r ++ concat rs) = concat rs).
  { rewrite <- Hr, skipn_app, skipn_all, Nat.sub_diag. reflexivity. }
  now rewrite Hf, Hk, IH.
Qed.

Lemma concat_chunk {A} (n k : nat) (l : list A) :
  length l = (n * k)%nat -> concat (chunk n k l) = l.
Proof.
  revert l; induction n as [|n IH]; intros l Hl; simpl in *.
  - now destruct l.
  - rewrite IH, firstn_skipn; [reflexivity|].
    rewrite length_skipn; lia.
Qed.

Lemma chunk_rows_length {A} (n k : nat) (l : list A) :
  length l = (n * k)%nat -> Forall (fun r => length r = k) (chunk n k l).
Proof.
  revert l; induction n as [|n IH]; intros l Hl; simpl in *; constructor.
  - rewrite length_firstn; lia.
  - apply IH. rewrite length_skipn; lia.
Qed.

Lemma last_snoc {A} (l : list A) (x d : A) : last (l ++ [x]) d = x.
Proof. apply last_last. Qed.

Lemma removelast_snoc {A} (l : list A) (x : A) : removelast (l ++ [x]) = l.
Proof. apply removelast_last. Qed.

Lemma snoc_not_nil {A} (l : list A) (x : A) : l ++ [x] <> [].
Proof. now destruct l. Qed.

Lemma shape_snoc (s : list nat) :
  s <> [] -> s = removelast s ++ [last s 0%nat].
Proof. intro H. now apply app_removelast_last. Qed.

Lemma last_default {A} (l : list A) (d d' : A) : l <> [] -> last l d = last l d'.
Proof.
  induction l as [|a l IH]; intro H; [congruence|].
  destruct l as [|b l]; [reflexivity|].
  change (last (b :: l) d = last (b :: l) d'). apply IH. discriminate.
Qed.

Lemma numel_snoc (s : list nat) (k : nat) : numel (s ++ [k]) = (numel s * k)%nat.
Proof.
  induction s as [|x s IH]; [simpl; lia|].
  change (x * numel (s ++ [k]) = x * numel s * k)%nat. rewrite IH. lia.
Qed.

Lemma rows_length {A} (t : tensor A) :
  length (rows t) = numel (removelast (shape t)).
Proof. apply chunk_length. Qed.

Lemma rows_of_rows {A} (batch : list nat) (k : nat) (rs : list (list A)) :
  length rs = numel batch ->
  Forall (fun r => length r = k) rs ->
  rows (of_rows batch k rs) = rs.
Proof.
  intros Hn Hk. unfold rows, of_rows; simpl.
  rewrite removelast_snoc, last_snoc, <- Hn. now apply chunk_concat.
Qed.

Lemma rows_snoc {A} (batch : list nat) (k : nat) (rs : list (list A)) :
  length rs = numel batch ->
  Forall (fun r => length r = k) rs ->
  rows {| shape := batch ++ [k]; data := concat rs |} = rs.
Proof. apply rows_of_rows. Qed.

Lemma Forall_map_length {A B} (f : A -> list B) (k : nat) (rs : list A) :
  (forall r, length (f r) = k) -> Forall (fun r => length r = k) (map f rs).
Proof. intro H. apply Forall_forall. intros r Hr. apply in_map_iff in Hr as (x & <- & _). apply H. Qed.

(** ** Softmax *)

Lemma Rsum_exp_pos (x : list R) : x <> [] -> 0 < Rsum (map exp x).
Proof.
  intro H. destruct x as [|a x]; [congruence|]. clear H. simpl.
  assert (0 <= Rsum (map exp x)).
  { induction x as [|b x IH]; simpl; [lra|]. pose proof (exp_pos b). lra. }
  pose proof (exp_pos a). lra.
Qed.

Lemma Rsum_map_div (l : list R) (s : R) :
  Rsum (map (fun v => v / s) l) = Rsum l / s.
Proof.
  induction l as [|a l IH]; simpl; [unfold Rdiv; ring|]. rewrite IH. unfold Rdiv; ring.
Qed.

Lemma softmax_row_distribution (x : list R) :
  x <> [] -> is_distribution (softmax_row x).
Proof.
  intro Hx. pose proof (Rsum_exp_pos Hx) as Hs. split.
  - unfold softmax_row. apply Forall_forall. intros p Hp.
    apply in_map_iff in Hp as (xi & <- & _).
    apply Rlt_le, Rdiv_lt_0_compat; [apply exp_pos | exact Hs].
  - unfold softmax_row.
    replace (map (fun xi => exp xi / Rsum (map exp x)) x)
      with (map (fun v => v / Rsum (map exp x)) (map exp x))
      by (rewrite map_map; reflexivity).
    rewrite Rsum_map_div. field. lra.
Qed.

Lemma softmax_row_length (x : list R) : length (softmax_row x) = length x.
Proof. apply length_map. Qed.

Lemma linear_row_length (L : Linear) (x : list R) :
  length (linear_row L x) = out_features L.
Proof. unfold linear_row. now rewrite length_map, length_seq. Qed.

(** ** The forward pass *)

Lemma linear_ok (L : Linear) (t : tensor R) :
  shape t <> [] -> last (shape t) 0%nat = in_features L ->
  linear L t = Ok (of_rows (removelast (shape t)) (out_features L)
                           (map (linear_row L) (rows t))).
Proof.
  intros Hs Hl. unfold linear. destruct (shape t) as [|d s] eqn:E; [congruence|].
  rewrite Hl, Nat.eqb_refl. reflexivity.
Qed.

Lemma raw_scores_ok (net : NeuralNet) (obs : tensor R) :
  shape obs <> [] -> last (shape obs) 0%nat = state_dim net ->
  exists rs,
    raw_scores net obs = Ok (of_rows (removelast (shape obs)) (action_dim net) rs)
    /\ length rs = numel (removelast (shape obs))
    /\ Forall (fun r => length r = action_dim net) rs.
Proof.
  intros Hs Hl. unfold raw_scores.
  rewrite (linear_ok (l1 net) obs Hs Hl). cbn [bind].
  rewrite linear_ok; cbn [relu tmap of_rows shape out_features l1 in_features l2];
    [|apply snoc_not_nil|now rewrite last_snoc].
  cbn [bind].
  rewrite linear_ok; cbn [relu tmap of_rows shape out_features l2 in_features l3];
    [|apply snoc_not_nil|now rewrite last_snoc].
  rewrite !removelast_snoc.
  eexists; split; [reflexivity|]. split.
  - rewrite length_map, rows_length. cbn [relu tmap of_rows shape].
    now rewrite removelast_snoc.
  - apply Forall_map_length. intro r. apply linear_row_length.
Qed.

Lemma forward_raw (net : NeuralNet) (obs : tensor R) :
  forward net obs =
  if b_actor net then (do o3 <- raw_scores net obs; Ok (softmax o3))
  else raw_scores net obs.
Proof.
  unfold forward, raw_scores.
  destruct (linear (l1 net) obs) as [o1|e]; cbn [bind]; [|now destruct (b_actor net)].
  destruct (linear (l2 net) (relu o1)) as [o2|e]; cbn [bind]; now destruct (b_actor net).
Qed.

Lemma rows_softmax (batch : list nat) (k : nat) (rs : list (list R)) :
  length rs = numel batch ->
  Forall (fun r => length r = k) rs ->
  rows (softmax (of_rows batch k rs)) = map softmax_row rs.
Proof.
  intros Hn Hk. unfold softmax. rewrite (rows_of_rows _ Hn Hk).
  cbn [of_rows shape]. apply rows_snoc.
  - now rewrite length_map.
  - apply Forall_forall. intros r Hr. apply in_map_iff in Hr as (x & <- & Hx).
    rewrite softmax_row_length. rewrite Forall_forall in Hk. now apply Hk.
Qed.

(** C1. In policy mode the forward pass is the softmax of the last layer's
    raw scores, so every slice along the last dimension has non-negative
    entries summing to 1; in value mode the raw scores are returned as they
    are.  The number of outputs is positive and the observation's last
    dimension is the network's input dimension. *)
Theorem forward_policy_distribution (net : NeuralNet) (obs : tensor R) :
  (0 < action_dim net)%nat ->
  shape obs <> [] ->
  last (shape obs) 0%nat = state_dim net ->
  exists raw,
    raw_scores net obs = Ok raw /\
    (b_actor net = false -> forward net obs = Ok raw) /\
    (b_actor net = true ->
       forward net obs = Ok (softmax raw) /\
       shape (softmax raw) = removelast (shape obs) ++ [action_dim net] /\
       length (rows (softmax raw)) = numel (removelast (shape obs)) /\
       rows (softmax raw) = map softmax_row (rows raw) /\
       Forall is_distribution (rows (softmax raw))).
Proof.
  intros Hpos Hs Hl.
  destruct (raw_scores_ok net obs Hs Hl) as (rs & Hraw & Hn & Hk).
  eexists; split; [exact Hraw|]. split.
  - intro Hb. now rewrite forward_raw, Hb.
  - intro Hb. rewrite forward_raw, Hb, Hraw. cbn [bind].
    rewrite (rows_softmax _ Hn Hk), (rows_of_rows _ Hn Hk).
    repeat split; try reflexivity.
    + now rewrite length_map.
    + apply Forall_forall. intros r Hr. apply in_map_iff in Hr as (x & <- & Hx).
      apply softmax_row_distribution. rewrite Forall_forall in Hk.
      specialize (Hk x Hx). destruct x; [simpl in Hk; lia | discriminate].
Qed.

Lemma forward_policy_distribution_witness :
  exists raw,
    raw_scores (mkNeuralNet 2 3 true (zero_params 2 3)) obs_122 = Ok raw /\
    (true = false -> forward (mkNeuralNet 2 3 true (zero_params 2 3)) obs_122 = Ok raw) /\
    (true = true ->
       forward (mkNeuralNet 2 3 true (zero_params 2 3)) obs_122 = Ok (softmax raw) /\
       shape (softmax raw) = removelast (shape obs_122) ++ [3%nat] /\
       length (rows (softmax raw)) = numel (removelast (shape obs_122)) /\
       rows (softmax raw) = map softmax_row (rows raw) /\
       Forall is_distribution (rows (softmax raw))).
Proof.
  apply (forward_policy_distribution (mkNeuralNet 2 3 true (zero_params 2 3)) obs_122).
  - simpl; lia.
  - discriminate.
  - reflexivity.
Defined.

(** ** The bounded loss history *)

Lemma record_loss_window (tr : list R) (l : R) :
  record_loss (skipn (length tr - 20) tr) l
  = skipn (length (tr ++ [l]) - 20) (tr ++ [l]).
Proof.
  unfold record_loss. rewrite !length_app, length_skipn. cbn [length].
  destruct (Nat.ltb 20 (length tr - (length tr - 20) + 1)) eqn:E.
  - apply Nat.ltb_lt in E.
    replace (length tr + 1 - 20)%nat with (1 + (length tr - 20))%nat by lia.
    rewrite <- skipn_skipn, skipn_app.
    replace (length tr - 20 - length tr)%nat with 0%nat by lia.
    reflexivity.
  - apply Nat.ltb_ge in E.
    replace (length tr + 1 - 20)%nat with 0%nat by lia.
    replace (length tr - 20)%nat with 0%nat by lia.
    reflexivity.
Qed.

Lemma window_length (tr : list R) :
  length (skipn (length tr - 20) tr) = Nat.min (length tr) 20.
Proof. rewrite length_skipn. lia. Qed.

Lemma window_not_nil (tr : list R) :
  tr <> [] -> skipn (length tr - 20) tr <> [].
Proof.
  intros H E. apply (f_equal (@length R)) in E. rewrite window_length in E.
  destruct tr; [congruence|]. simpl in E. lia.
Qed.

Lemma np_mean_finite (l : list R) :
  l <> [] -> np_mean l = Finite (Rsum l / INR (length l)).
Proof. destruct l; [congruence|reflexivity]. Qed.

Lemma diagnostic_of_snoc (tr : list R) (l : R) :
  diagnostic_of (tr ++ [l]) = np_mean (record_loss (skipn (length tr - 20) tr) l).
Proof.
  rewrite record_loss_window. unfold diagnostic_of.
  destruct (tr ++ [l]) eqn:E; [now destruct tr|reflexivity].
Qed.

Section TrainerProperties.
Context {B : Backend}.

Lemma critic_update_cases (self : Critic.CriticNetwork) (obs : tensor R)
    (act : any_tensor) (target : tensor R) (flag : bool) :
  match Critic.loss_of (Critic.num_outs self) (Critic.net self) obs act target flag with
  | Err e =>
      Critic.batch_update self obs act target flag = (Err e, Critic.zero_grad self)
  | Ok loss =>
      exists self',
        Critic.batch_update self obs act target flag = (Ok tt, self')
        /\ Critic.losses self' = record_loss (Critic.losses self) loss
        /\ Critic.critic_loss self' = np_mean (Critic.losses self')
        /\ Critic.num_outs self' = Critic.num_outs self
  end.
Proof.
  unfold Critic.batch_update. cbn [Critic.zero_grad Critic.num_outs Critic.net].
  destruct (Critic.loss_of _ _ obs act target flag) as [loss|e]; [|reflexivity].
  destruct (optim_step _ _ _) as [p opt].
  eexists; split; [reflexivity|].
  cbn. destruct (Critic.cuda self); auto.
Qed.

Lemma actor_update_cases (self : Actor.ActorNetwork) (obs : tensor R)
    (act : any_tensor) (adv : tensor R) (flag : bool) :
  match Actor.loss_of (Actor.beta self) (Actor.net self) obs act adv flag with
  | Err e =>
      Actor.batch_update self obs act adv flag = (Err e, Actor.zero_grad self)
  | Ok loss =>
      exists self',
        Actor.batch_update self obs act adv flag = (Ok tt, self')
        /\ Actor.losses self' = record_loss (Actor.losses self) loss
        /\ Actor.actor_loss self' = np_mean (Actor.losses self')
        /\ Actor.beta self' = Actor.beta self
  end.
Proof.
  unfold Actor.batch_update. cbn [Actor.zero_grad Actor.beta Actor.net].
  destruct (Actor.loss_of _ _ obs act adv flag) as [loss|e]; [|reflexivity].
  destruct (optim_step _ _ _) as [p opt].
  eexists; split; [reflexivity|].
  cbn. destruct (Actor.cuda self); auto.
Qed.

Lemma critic_run_window (calls : list Critic.call) :
  forall (self : Critic.CriticNetwork) (tr : list R),
    Critic.losses self = skipn (length tr - 20) tr ->
    Critic.critic_loss self = diagnostic_of tr ->
    let out := Critic.run_updates self calls in
    let tr' := tr ++ Critic.successful_losses self calls in
    Critic.losses (snd out) = skipn (length tr' - 20) tr'
    /\ Critic.critic_loss (snd out) = diagnostic_of tr'
    /\ length (Critic.successful_losses self calls) = count_ok (fst out).
Proof.
  induction calls as [|c cs IH]; intros self tr Hl Hd; cbn zeta.
  - cbn. rewrite app_nil_r. auto.
  - cbn [Critic.run_updates Critic.successful_losses].
    pose proof (critic_update_cases self (Critic.call_obs c) (Critic.call_act c)
                  (Critic.call_target c) (Critic.call_distribution c)) as Hc.
    destruct (Critic.loss_of _ _ _ _ _ _) as [loss|e].
    + destruct Hc as (self' & Hu & Hl' & Hd' & _).
      fold (Critic.update self c) in Hu. rewrite Hu. cbn [snd].
      specialize (IH self' (tr ++ [loss])).
      destruct (Critic.run_updates self' cs) as [rs s'] eqn:Er.
      cbn [fst snd] in *. rewrite <- app_assoc in IH. cbn [app] in IH.
      destruct IH as (H1 & H2 & H3).
      * now rewrite Hl', Hl, record_loss_window.
      * now rewrite Hd', Hl', Hl, diagnostic_of_snoc.
      * repeat split; auto. unfold count_ok in *.
        cbn [filter is_ok length]. now f_equal.
    + fold (Critic.update self c) in Hc. rewrite Hc. cbn [snd].
      specialize (IH (Critic.zero_grad self) tr Hl Hd).
      destruct (Critic.run_updates (Critic.zero_grad self) cs) as [rs s'] eqn:Er.
      cbn [fst snd] in *. destruct IH as (H1 & H2 & H3).
      repeat split; auto.
Qed.

Lemma actor_run_window (calls : list Actor.call) :
  forall (self : Actor.ActorNetwork) (tr : list R),
    Actor.losses self = skipn (length tr - 20) tr ->
    Actor.actor_loss self = diagnostic_of tr ->
    let out := Actor.run_updates self calls in
    let tr' := tr ++ Actor.successful_losses self calls in
    Actor.losses (snd out) = skipn (length tr' - 20) tr'
    /\ Actor.actor_loss (snd out) = diagnostic_of tr'
    /\ length (Actor.successful_losses self calls) = count_ok (fst out).
Proof.
  induction calls as [|c cs IH]; intros self tr Hl Hd; cbn zeta.
  - cbn. rewrite app_nil_r. auto.
  - cbn [Actor.run_updates Actor.successful_losses].
    pose proof (actor_update_cases self (Actor.call_obs c) (Actor.call_act c)
                  (Actor.call_adv c) (Actor.call_distribution c)) as Hc.
    destruct (Actor.loss_of _ _ _ _ _ _) as [loss|e].
    + destruct Hc as (self' & Hu & Hl' & Hd' & _).
      fold (Actor.update self c) in Hu. rewrite Hu. cbn [snd].
      specialize (IH self' (tr ++ [loss])).
      destruct (Actor.run_updates self' cs) as [rs s'] eqn:Er.
      cbn [fst snd] in *. rewrite <- app_assoc in IH. cbn [app] in IH.
      destruct IH as (H1 & H2 & H3).
      * now rewrite Hl', Hl, record_loss_window.
      * now rewrite Hd', Hl', Hl, diagnostic_of_snoc.
      * repeat split; auto. unfold count_ok in *.
        cbn [filter is_ok length]. now f_equal.
    + fold (Actor.update self c) in Hc. rewrite Hc. cbn [snd].
      specialize (IH (Actor.zero_grad self) tr Hl Hd).
      destruct (Actor.run_updates (Actor.zero_grad self) cs) as [rs s'] eqn:Er.
      cbn [fst snd] in *. destruct IH as (H1 & H2 & H3).
      repeat split; auto.
Qed.

End TrainerProperties.

(** ** Broadcasting between equal shapes *)

Lemma broadcast_rev_same (s : list nat) : broadcast_rev s s = Some s.
Proof.
  induction s as [|x s IH]; [reflexivity|].
  cbn [broadcast_rev]. now rewrite Nat.eqb_refl, IH.
Qed.

Lemma broadcast_shapes_same (s : list nat) : broadcast_shapes s s = Some s.
Proof.
  unfold broadcast_shapes. rewrite broadcast_rev_same. cbn. now rewrite rev_involutive.
Qed.

Lemma broadcastable_rev_same (s : list nat) : broadcastable_rev s s = true.
Proof.
  induction s as [|x s IH]; [reflexivity|].
  cbn [broadcastable_rev]. rewrite Nat.eqb_refl, IH. now rewrite !orb_true_r.
Qed.

Lemma pad_shape_same (s : list nat) : pad_shape (length s) s = s.
Proof. unfold pad_shape. now rewrite Nat.sub_diag. Qed.

Lemma expand_data_same {A} (s : list nat) :
  forall d : list A, length d = numel s -> expand_data s s d = d.
Proof.
  induction s as [|x s IH]; intros d Hd; [reflexivity|].
  cbn [expand_data]. rewrite Nat.eqb_refl.
  change (numel (x :: s)) with (x * numel s)%nat in Hd.
  rewrite <- (concat_chunk x (numel s) d Hd) at 2. f_equal.
  rewrite <- (map_id (chunk x (numel s) d)) at 2.
  apply map_ext_in. intros c Hc. apply IH.
  pose proof (chunk_rows_length x (numel s) d Hd) as Hall.
  rewrite Forall_forall in Hall. now apply Hall.
Qed.

Lemma expand_same {A} (t : tensor A) :
  wf_tensor t -> data (expand t (shape t)) = data t.
Proof.
  intro H. unfold expand; cbn [data]. rewrite pad_shape_same. now apply expand_data_same.
Qed.

Lemma broadcast_op_same (f : R -> R -> R) (a b : tensor R) :
  shape b = shape a -> wf_tensor a -> wf_tensor b ->
  broadcast_op f a b = Ok {| shape := shape a; data := zip_with f (data a) (data b) |}.
Proof.
  intros Hs Ha Hb. unfold broadcast_op. rewrite Hs, broadcast_shapes_same.
  rewrite (expand_same Ha). rewrite <- Hs at 2. now rewrite (expand_same Hb).
Qed.

(** ** Zipping *)

Lemma zip_with_length {A B C} (f : A -> B -> C) (u : list A) (v : list B) :
  length (zip_with f u v) = Nat.min (length u) (length v).
Proof.
  revert v; induction u as [|a u IH]; intros [|b v]; cbn; auto.
Qed.

Lemma zip_with_app {A B C} (f : A -> B -> C) (u u' : list A) (v v' : list B) :
  length u = length v ->
  zip_with f (u ++ u') (v ++ v') = zip_with f u v ++ zip_with f u' v'.
Proof.
  revert v; induction u as [|a u IH]; intros [|b v] H; cbn in *; try discriminate; auto.
  f_equal. apply IH. lia.
Qed.

Lemma zip_with_concat {A B C} (f : A -> B -> C) (k : nat)
    (us : list (list A)) (vs : list (list B)) :
  Forall (fun r => length r = k) us ->
  Forall (fun r => length r = k) vs ->
  zip_with f (concat us) (concat vs) = concat (zip_with (zip_with f) us vs).
Proof.
  intros Hu; revert vs; induction Hu as [|u us Hu _ IH]; intros vs Hv.
  - reflexivity.
  - destruct Hv as [|v vs Hv Hvs].
    + cbn. now destruct (u ++ concat us).
    + cbn. rewrite zip_with_app by congruence. f_equal. now apply IH.
Qed.

Lemma zip_with_map_l {A A' B C} (f : A' -> B -> C) (g : A -> A') (u : list A) (v : list B) :
  zip_with f (map g u) v = zip_with (fun a b => f (g a) b) u v.
Proof. revert v; induction u as [|a u IH]; intros [|b v]; cbn; auto. now rewrite IH. Qed.

Lemma zip_with_map_r {A B B' C} (f : A -> B' -> C) (g : B -> B') (u : list A) (v : list B) :
  zip_with f u (map g v) = zip_with (fun a b => f a (g b)) u v.
Proof. revert v; induction u as [|a u IH]; intros [|b v]; cbn; auto. now rewrite IH. Qed.

Lemma map_zip_with {A B C D} (g : C -> D) (f : A -> B -> C) (u : list A) (v : list B) :
  map g (zip_with f u v) = zip_with (fun a b => g (f a b)) u v.
Proof. revert v; induction u as [|a u IH]; intros [|b v]; cbn; auto. now rewrite IH. Qed.

Lemma zip_with_ext_in {A B C} (f g : A -> B -> C) (u : list A) (v : list B) :
  (forall a b, In a u -> In b v -> f a b = g a b) ->
  zip_with f u v = zip_with g u v.
Proof.
  revert v; induction u as [|a u IH]; intros [|b v] H; cbn; auto.
  rewrite H by (now left). f_equal. apply IH. intros; apply H; now right.
Qed.

Lemma Forall_zip_with_length {A B C} (f : A -> B -> C) (k : nat)
    (us : list (list A)) (vs : list (list B)) :
  Forall (fun r => length r = k) us ->
  Forall (fun r => length r = k) vs ->
  Forall (fun r => length r = k) (zip_with (zip_with f) us vs).
Proof.
  intros Hu; revert vs; induction Hu as [|u us Hu _ IH]; intros vs Hv; [constructor|].
  destruct Hv as [|v vs Hv Hvs]; [constructor|].
  cbn. constructor; [|now apply IH]. rewrite zip_with_length. lia.
Qed.

Lemma length_concat_uniform {A} (k : nat) (rs : list (list A)) :
  Forall (fun r => length r = k) rs -> length (concat rs) = (length rs * k)%nat.
Proof.
  induction 1 as [|r rs Hr _ IH]; [reflexivity|].
  cbn. rewrite length_app, IH. lia.
Qed.

(** ** One-hot rows *)

Lemma one_hot_row_length (n : nat) (k : Z) : length (one_hot_row n k) = n.
Proof. unfold one_hot_row. now rewrite length_map, length_seq. Qed.

Lemma one_hot_row_nth (n : nat) (k : Z) (j : nat) :
  (j < n)%nat ->
  nth j (one_hot_row n k) 0%Z = if (Z.of_nat j =? k)%Z then 1%Z else 0%Z.
Proof.
  intro H. unfold one_hot_row.
  set (f := fun j => if (Z.of_nat j =? k)%Z then 1%Z else 0%Z).
  rewrite (nth_indep _ 0%Z (f 0%nat)) by now rewrite length_map, length_seq.
  rewrite (map_nth f), seq_nth by assumption. reflexivity.
Qed.

Lemma dot_one_hot_from (k : Z) (row : list R) :
  forall off : nat,
    Rsum (zip_with Rmult row
            (map IZR (map (fun j => if (Z.of_nat j =? k)%Z then 1%Z else 0%Z)
                          (seq off (length row)))))
    = if ((Z.of_nat off <=? k)%Z && (k <? Z.of_nat (off + length row))%Z)%bool
      then nth (Z.to_nat k - off) row 0 else 0.
Proof.
  induction row as [|x row IH]; intro off.
  - cbn [length seq map zip_with Rsum fold_right].
    destruct ((Z.of_nat off <=? k)%Z && (k <? Z.of_nat (off + 0))%Z)%bool;
      [destruct (Z.to_nat k - off)%nat|]; reflexivity.
  - cbn [length seq map zip_with Rsum fold_right]. fold (Rsum
      (zip_with Rmult row
         (map IZR (map (fun j => if (Z.of_nat j =? k)%Z then 1%Z else 0%Z)
                       (seq (S off) (length row)))))).
    rewrite IH.
    destruct (Z.eqb_spec (Z.of_nat off) k) as [E|E].
    + subst k.
      replace ((Z.of_nat (S off) <=? Z.of_nat off)%Z) with false
        by (symmetry; apply Z.leb_gt; lia).
      replace ((Z.of_nat off <=? Z.of_nat off)%Z) with true
        by (symmetry; apply Z.leb_le; lia).
      replace ((Z.of_nat off <? Z.of_nat (off + S (length row)))%Z) with true
        by (symmetry; apply Z.ltb_lt; lia).
      cbn [andb]. rewrite Nat2Z.id, Nat.sub_diag. cbn. ring.
    + replace (S off + length row)%nat with (off + S (length row))%nat by lia.
      destruct (Z.leb_spec (Z.of_nat (S off)) k) as [L|L].
      * replace ((Z.of_nat off <=? k)%Z) with true by (symmetry; apply Z.leb_le; lia).
        cbn [andb]. destruct (k <? Z.of_nat (off + S (length row)))%Z.
        -- replace (Z.to_nat k - off)%nat with (S (Z.to_nat k - S off)) by lia.
           cbn. ring.
        -- cbn. ring.
      * replace ((Z.of_nat off <=? k)%Z) with false by (symmetry; apply Z.leb_gt; lia).
        cbn. ring.
Qed.

Lemma dot_one_hot (n : nat) (k : Z) (row : list R) :
  length row = n -> in_range n k = true ->
  Rsum (zip_with Rmult row (map IZR (one_hot_row n k))) = nth (Z.to_nat k) row 0.
Proof.
  intros Hn Hk. unfold one_hot_row. rewrite <- Hn, dot_one_hot_from.
  unfold in_range in Hk. rewrite <- Hn in Hk. cbn [Z.of_nat Nat.add].
  rewrite Hk. now rewrite Nat.sub_0_r.
Qed.

(** ** The steps of the critic's loss on well-shaped inputs *)

Lemma wf_of_rows {A} (bs : list nat) (k : nat) (rs : list (list A)) :
  length rs = numel bs -> Forall (fun r => length r = k) rs ->
  wf_tensor (of_rows bs k rs).
Proof.
  intros Hn Hk. unfold wf_tensor, of_rows; cbn [shape data].
  now rewrite numel_snoc, (length_concat_uniform Hk), Hn.
Qed.

Lemma forward_value_ok (net : NeuralNet) (obs : tensor R) (bs : list nat) :
  b_actor net = false ->
  shape obs = bs ++ [state_dim net] ->
  exists rs,
    forward net obs = Ok (of_rows bs (action_dim net) rs)
    /\ length rs = numel bs
    /\ Forall (fun r => length r = action_dim net) rs.
Proof.
  intros Hb Hs.
  destruct (raw_scores_ok net obs) as (rs & Hraw & Hn & Hk).
  - rewrite Hs. apply snoc_not_nil.
  - rewrite Hs. apply last_snoc.
  - rewrite Hs, removelast_snoc in *. exists rs. rewrite forward_raw, Hb. auto.
Qed.

Lemma squeeze_last_snoc1 {A} (t : tensor A) (bs : list nat) :
  shape t = bs ++ [1%nat] -> squeeze_last t = {| shape := bs; data := data t |}.
Proof.
  intro H. unfold squeeze_last. rewrite H.
  destruct (bs ++ [1%nat]) eqn:E; [now destruct bs|].
  rewrite <- E, last_snoc, removelast_snoc. reflexivity.
Qed.

Lemma one_hot_ok (t : tensor Z) (n : nat) :
  (0 < n)%nat -> wf_tensor t -> forallb (in_range n) (data t) = true ->
  one_hot t n = Ok {| shape := shape t ++ [n];
                      data := concat (map (one_hot_row n) (data t)) |}.
Proof.
  intros Hn Hwf Hr. unfold one_hot. rewrite Hr.
  destruct (Nat.eqb_spec (numel (shape t)) 0) as [E|E]; [|reflexivity].
  destruct (Nat.eqb_spec n 0) as [E'|_]; [lia|].
  unfold wf_tensor in Hwf. rewrite E in Hwf.
  apply length_zero_iff_nil in Hwf. now rewrite Hwf.
Qed.

Lemma one_hot_out_of_range (t : tensor Z) (n : nat) :
  wf_tensor t -> forallb (in_range n) (data t) = false ->
  one_hot t n = Err IndexOutOfRange.
Proof.
  intros Hwf Hr. unfold one_hot. rewrite Hr.
  destruct (Nat.eqb_spec (numel (shape t)) 0) as [E|E]; [|reflexivity].
  unfold wf_tensor in Hwf. rewrite E in Hwf.
  apply length_zero_iff_nil in Hwf. rewrite Hwf in Hr. discriminate.
Qed.

Lemma q_sel_one_hot (n : nat) (idx : tensor Z) (bs : list nat) :
  (0 < n)%nat -> shape idx = bs ++ [1%nat] -> wf_tensor idx ->
  forallb (in_range n) (data idx) = true ->
  Critic.q_sel n (LongT idx) false
  = Ok (of_rows bs n (map (fun k => map IZR (one_hot_row n k)) (data idx))).
Proof.
  intros Hn Hs Hwf Hr. unfold Critic.q_sel. cbn [negb any_squeeze_last long].
  rewrite (squeeze_last_snoc1 idx bs Hs), one_hot_ok; cbn [shape data bind]; auto.
  - unfold float, tmap, of_rows; cbn [shape data].
    now rewrite concat_map, map_map.
  - unfold wf_tensor in *; cbn [shape data]. rewrite Hwf, Hs, numel_snoc. lia.
Qed.

Lemma dot_prd_rows (bs : list nat) (k : nat) (rs qs : list (list R)) :
  length rs = numel bs -> length qs = numel bs ->
  Forall (fun r => length r = k) rs -> Forall (fun r => length r = k) qs ->
  Critic.dot_prd (of_rows bs k rs) (of_rows bs k qs)
  = Ok {| shape := bs ++ [1%nat];
          data := zip_with (fun r q => Rsum (zip_with Rmult r q)) rs qs |}.
Proof.
  intros Hn Hm Hk Hq. unfold Critic.dot_prd.
  rewrite broadcast_op_same; [|reflexivity|now apply wf_of_rows..].
  cbn [bind of_rows shape data]. rewrite (zip_with_concat Rmult Hk Hq).
  unfold sum_last_keepdims; cbn [shape].
  destruct (bs ++ [k]) eqn:E; [now destruct bs|]. rewrite <- E.
  rewrite removelast_snoc, rows_snoc.
  - now rewrite map_zip_with.
  - rewrite zip_with_length. lia.
  - now apply Forall_zip_with_length.
Qed.

Lemma mse_loss_same (bs : list nat) (ps : list R) (target : tensor R) :
  shape target = bs ++ [1%nat] -> wf_tensor target ->
  length ps = numel bs ->
  mse_loss target {| shape := bs ++ [1%nat]; data := ps |}
  = Ok (Rsum (zip_with (fun t p => (t - p) ^ 2) (data target) ps) / INR (numel bs)).
Proof.
  intros Hs Hwf Hp. unfold mse_loss.
  rewrite broadcast_op_same; cbn [shape data]; auto.
  - cbn [bind]. unfold tmean; cbn [data]. rewrite zip_with_length.
    unfold wf_tensor in Hwf. rewrite Hwf, Hs, numel_snoc, Hp.
    now rewrite Nat.mul_1_r, Nat.min_id.
  - unfold wf_tensor; cbn [shape data]. rewrite numel_snoc. lia.
Qed.

(** ** The categorical distribution of a softmax output *)

Lemma Rleb_true (a b : R) : a <= b -> Rleb a b = true.
Proof. intro H. unfold Rleb. now destruct (Rle_dec a b). Qed.

Lemma Rltb_true (a b : R) : a < b -> Rltb a b = true.
Proof. intro H. unfold Rltb. now destruct (Rlt_dec a b). Qed.

Lemma simplex_check_distribution (row : list R) :
  is_distribution row -> simplex_check row = true.
Proof.
  intros [Hpos Hsum]. unfold simplex_check. apply andb_true_intro. split.
  - apply forallb_forall. intros p Hp. apply Rleb_true.
    rewrite Forall_forall in Hpos. now apply Hpos.
  - apply Rltb_true. rewrite Hsum.
    replace (1 - 1) with 0 by ring. rewrite Rabs_R0. lra.
Qed.

Lemma normalize_row_distribution (row : list R) :
  is_distribution row -> normalize_row row = row.
Proof.
  intros [_ Hsum]. unfold normalize_row. rewrite Hsum.
  rewrite <- (map_id row) at 2. apply map_ext. intro p. field.
Qed.

Lemma softmax_of_rows (bs : list nat) (k : nat) (rs : list (list R)) :
  length rs = numel bs -> Forall (fun r => length r = k) rs ->
  softmax (of_rows bs k rs) = of_rows bs k (map softmax_row rs).
Proof.
  intros Hn Hk. unfold softmax. now rewrite (rows_of_rows _ Hn Hk).
Qed.

Lemma softmax_rows_distribution (k : nat) (rs : list (list R)) :
  (0 < k)%nat -> Forall (fun r => length r = k) rs ->
  Forall is_distribution (map softmax_row rs).
Proof.
  intros Hpos Hk. apply Forall_forall. intros r Hr.
  apply in_map_iff in Hr as (x & <- & Hx). apply softmax_row_distribution.
  rewrite Forall_forall in Hk. specialize (Hk x Hx).
  destruct x; [simpl in Hk; lia | discriminate].
Qed.

Lemma softmax_rows_length (k : nat) (rs : list (list R)) :
  Forall (fun r => length r = k) rs ->
  Forall (fun r => length r = k) (map softmax_row rs).
Proof.
  intro Hk. apply Forall_forall. intros r Hr.
  apply in_map_iff in Hr as (x & <- & Hx). rewrite softmax_row_length.
  rewrite Forall_forall in Hk. now apply Hk.
Qed.

Lemma Categorical_init_distributions (bs : list nat) (k : nat) (ps : list (list R)) :
  length ps = numel bs -> Forall (fun r => length r = k) ps ->
  Forall is_distribution ps ->
  Categorical_init (of_rows bs k ps) = Ok (mkCategorical (of_rows bs k ps)).
Proof.
  intros Hn Hk Hd. unfold Categorical_init.
  cbn [of_rows shape]. destruct (bs ++ [k]) eqn:E; [now destruct bs|]. rewrite <- E.
  fold (of_rows bs k ps). rewrite (rows_of_rows _ Hn Hk).
  replace (map normalize_row ps) with ps.
  - fold (of_rows bs k ps). rewrite (rows_of_rows _ Hn Hk).
    replace (forallb simplex_check ps) with true; [reflexivity|].
    symmetry. apply forallb_forall. intros r Hr.
    apply simplex_check_distribution. rewrite Forall_forall in Hd. now apply Hd.
  - rewrite <- (map_id ps) at 1. apply map_ext_in. intros r Hr.
    symmetry. apply normalize_row_distribution.
    rewrite Forall_forall in Hd. now apply Hd.
Qed.

(** The policy network on a well-shaped batch: the softmax rows, and the
    distribution built from them. *)
Lemma forward_policy_ok (net : NeuralNet) (obs : tensor R) (bs : list nat) :
  b_actor net = true ->
  (0 < action_dim net)%nat ->
  shape obs = bs ++ [state_dim net] ->
  exists ps,
    forward net obs = Ok (of_rows bs (action_dim net) ps)
    /\ Categorical_init (of_rows bs (action_dim net) ps)
       = Ok (mkCategorical (of_rows bs (action_dim net) ps))
    /\ length ps = numel bs
    /\ Forall (fun r => length r = action_dim net) ps
    /\ Forall is_distribution ps.
Proof.
  intros Hb Hpos Hs.
  destruct (raw_scores_ok net obs) as (rs & Hraw & Hn & Hk).
  - rewrite Hs. apply snoc_not_nil.
  - rewrite Hs. apply last_snoc.
  - rewrite Hs, removelast_snoc in *. exists (map softmax_row rs).
    assert (Hn' : length (map softmax_row rs) = numel bs) by now rewrite length_map.
    pose proof (softmax_rows_length Hk) as Hk'.
    pose proof (softmax_rows_distribution Hpos Hk) as Hd.
    rewrite forward_raw, Hb, Hraw. cbn [bind]. rewrite (softmax_of_rows _ Hn Hk).
    split; [reflexivity|]. split; [now apply Categorical_init_distributions|]. auto.
Qed.

(** ** The steps of the actor's loss on well-shaped inputs *)

Lemma log_prob_indices (bs : list nat) (n : nat) (ps : list (list R)) (idx : tensor Z) :
  length ps = numel bs -> Forall (fun r => length r = n) ps ->
  shape idx = bs ++ [1%nat] -> wf_tensor idx ->
  forallb (in_range n) (data idx) = true ->
  log_prob (mkCategorical (of_rows bs n ps)) (any_squeeze_last (LongT idx))
  = Ok {| shape := bs;
          data := zip_with (fun row k => nth (Z.to_nat k) row 0)
                           (map (map (fun p => ln (clamp_probs p))) ps) (data idx) |}.
Proof.
  intros Hn Hk Hs Hwf Hr.
  assert (Hlen : length (data idx) = numel bs).
  { unfold wf_tensor in Hwf. rewrite Hwf, Hs, numel_snoc. lia. }
  cbn [any_squeeze_last]. rewrite (squeeze_last_snoc1 idx bs Hs).
  unfold log_prob, logits, batch_shape, num_events.
  cbn [any_shape shape probs of_rows long data].
  rewrite removelast_snoc, last_snoc, broadcastable_rev_same.
  cbn [negb in_support data]. rewrite Hr. cbn [negb].
  rewrite broadcast_shapes_same. unfold expand.
  cbn [shape data tmap]. rewrite !pad_shape_same.
  rewrite (expand_data_same bs (data idx) Hlen).
  rewrite expand_data_same.
  - cbn [of_rows data]. rewrite concat_map, rows_snoc; [reflexivity|now rewrite length_map|].
    apply Forall_forall. intros r Hin. apply in_map_iff in Hin as (x & <- & Hx).
    rewrite length_map. rewrite Forall_forall in Hk. now apply Hk.
  - cbn [of_rows data].
    rewrite length_map, numel_snoc, (length_concat_uniform Hk). now rewrite Hn.
Qed.

Lemma nth_map_in_range (f : R -> R) (k : nat) (p : list R) :
  (k < length p)%nat -> nth k (map f p) 0 = f (nth k p 0).
Proof.
  intro H. rewrite (nth_indep _ 0 (f 0)) by now rewrite length_map.
  apply map_nth.
Qed.

Lemma policy_gradient_terms (beta : R) (n : nat) :
  forall (advs : list R) (idxs : list Z) (ps : list (list R)),
    Forall (fun r => length r = n) ps ->
    forallb (in_range n) idxs = true ->
    zip_with Rminus
      (zip_with Rmult advs
         (map Ropp (zip_with (fun row k => nth (Z.to_nat k) row 0)
                             (map (map (fun p => ln (clamp_probs p))) ps) idxs)))
      (map (Rmult beta) (map entropy_row ps))
    = zip3_with (clamped_policy_gradient_term beta) advs idxs ps.
Proof.
  induction advs as [|a advs IH]; intros idxs ps Hk Hr; [reflexivity|].
  destruct ps as [|p ps]; [now destruct idxs|].
  destruct idxs as [|k idxs]; [reflexivity|].
  cbn [map zip_with zip3_with]. inversion Hk as [|? ? Hp Hps]; subst.
  cbn [forallb] in Hr. apply andb_prop in Hr as [Hk0 Hr].
  rewrite (IH idxs ps Hps Hr). f_equal.
  unfold clamped_policy_gradient_term.
  rewrite (nth_map_in_range (fun p => ln (clamp_probs p))); [reflexivity|].
  unfold in_range in Hk0. apply andb_prop in Hk0 as [H0 H1].
  apply Z.leb_le in H0. apply Z.ltb_lt in H1. lia.
Qed.

Lemma negated_advantage_terms (beta : R) (advs : list R) (ps : list (list R)) :
  zip_with Rminus (map Ropp advs) (map (Rmult beta) (map entropy_row ps))
  = zip_with (negated_advantage_term beta) advs ps.
Proof.
  rewrite map_map, zip_with_map_l, zip_with_map_r. reflexivity.
Qed.

Lemma zip3_with_length {A B C D} (f : A -> B -> C -> D)
    (u : list A) (v : list B) (w : list C) (n : nat) :
  length u = n -> length v = n -> length w = n -> length (zip3_with f u v w) = n.
Proof.
  revert v w n; induction u as [|a u IH]; intros [|b v] [|c w] n Hu Hv Hw;
    cbn in *; try congruence.
  destruct n; [discriminate|]. f_equal. apply IH; lia.
Qed.

(** The last three lines of the loss, from a policy-gradient term of the
    shape of the batch. *)
Lemma actor_loss_assemble (beta : R) (net : NeuralNet) (obs : tensor R)
    (act : any_tensor) (adv : tensor R) (flag : bool)
    (bs : list nat) (ps : list (list R)) (pg : list R) :
  forward net obs = Ok (of_rows bs (action_dim net) ps) ->
  Categorical_init (of_rows bs (action_dim net) ps)
    = Ok (mkCategorical (of_rows bs (action_dim net) ps)) ->
  length ps = numel bs ->
  Forall (fun r => length r = action_dim net) ps ->
  Actor.pg_loss (mkCategorical (of_rows bs (action_dim net) ps)) act adv flag
    = Ok {| shape := bs ++ [1%nat]; data := pg |} ->
  length pg = numel bs ->
  Actor.loss_of beta net obs act adv flag
  = Ok (Rsum (zip_with Rminus pg (map (Rmult beta) (map entropy_row ps)))
        / INR (numel bs)).
Proof.
  intros Hf Hc Hn Hk Hpg Hlen. unfold Actor.loss_of.
  rewrite Hf. cbn [bind]. rewrite Hc. cbn [bind]. rewrite Hpg. cbn [bind].
  unfold entropy, batch_shape. cbn [probs]. rewrite (rows_of_rows _ Hn Hk).
  cbn [of_rows shape]. rewrite removelast_snoc.
  rewrite broadcast_op_same.
  - cbn [bind shape data unsqueeze_last tmap]. unfold tmean. cbn [data].
    rewrite zip_with_length, !length_map, Hlen, Hn, Nat.min_id. reflexivity.
  - reflexivity.
  - unfold wf_tensor; cbn [shape data]. rewrite numel_snoc. lia.
  - unfold wf_tensor; cbn [shape data unsqueeze_last tmap].
    rewrite !length_map, numel_snoc. lia.
Qed.

(** ** The losses on action indices, step by step *)

Lemma broadcast_op_none (f : R -> R -> R) (a b : tensor R) :
  broadcast_shapes (shape a) (shape b) = None ->
  broadcast_op f a b = Err ShapeMismatch.
Proof. intro H. unfold broadcast_op. now rewrite H. Qed.

Lemma forward_obs_mismatch (net : NeuralNet) (obs : tensor R) :
  shape obs = [] \/ last (shape obs) 0%nat <> state_dim net ->
  forward net obs = Err ShapeMismatch.
Proof.
  intro H. unfold forward, linear. destruct (shape obs) as [|d s] eqn:E.
  - reflexivity.
  - destruct H as [H|H]; [discriminate|].
    cbn [l1 in_features]. apply Nat.eqb_neq in H. now rewrite H.
Qed.

Lemma critic_indices_loss (net : NeuralNet) (n : nat) (obs : tensor R)
    (idx : tensor Z) (target : tensor R) (bs : list nat) :
  b_actor net = false -> action_dim net = n -> (0 < n)%nat ->
  shape obs = bs ++ [state_dim net] ->
  shape idx = bs ++ [1%nat] -> wf_tensor idx ->
  forallb (in_range n) (data idx) = true ->
  exists rs,
    forward net obs = Ok (of_rows bs n rs)
    /\ length rs = numel bs
    /\ Forall (fun r => length r = n) rs
    /\ (do q <- Critic.q_sel n (LongT idx) false; Critic.dot_prd (of_rows bs n rs) q)
       = Ok {| shape := bs ++ [1%nat];
               data := zip_with (fun row k => nth (Z.to_nat k) row 0) rs (data idx) |}
    /\ (shape target = bs ++ [1%nat] -> wf_tensor target ->
        Critic.loss_of n net obs (LongT idx) target false
        = Ok (Rsum (zip_with (fun t p => (t - p) ^ 2) (data target)
                      (zip_with (fun row k => nth (Z.to_nat k) row 0) rs (data idx)))
              / INR (numel bs)))
    /\ (broadcast_shapes (shape target) (bs ++ [1%nat]) = None ->
        Critic.loss_of n net obs (LongT idx) target false = Err ShapeMismatch).
Proof.
  intros Hb Hdim Hpos Hobs Hidx Hwf Hr.
  destruct (forward_value_ok net obs bs Hb Hobs) as (rs & HQ & Hn & Hk).
  rewrite Hdim in HQ, Hk.
  assert (Hlen : length (data idx) = numel bs).
  { unfold wf_tensor in Hwf. rewrite Hwf, Hidx, numel_snoc. lia. }
  pose proof (@q_sel_one_hot n idx bs Hpos Hidx Hwf Hr) as Hq.
  assert (Hd : (do q <- Critic.q_sel n (LongT idx) false;
                Critic.dot_prd (of_rows bs n rs) q)
               = Ok {| shape := bs ++ [1%nat];
                       data := zip_with (fun row k => nth (Z.to_nat k) row 0)
                                        rs (data idx) |}).
  { rewrite Hq. cbn [bind]. rewrite dot_prd_rows; auto.
    - f_equal. f_equal. rewrite zip_with_map_r. apply zip_with_ext_in.
      intros r k Hin Hink. apply dot_one_hot.
      + rewrite Forall_forall in Hk. now apply Hk.
      + rewrite forallb_forall in Hr. now apply Hr.
    - now rewrite length_map.
    - apply Forall_map_length. intro. rewrite length_map. apply one_hot_row_length. }
  exists rs. split; [exact HQ|]. split; [exact Hn|]. split; [exact Hk|].
  split; [exact Hd|].
  assert (Hstep : forall r,
            mse_loss target {| shape := bs ++ [1%nat];
                               data := zip_with (fun row k => nth (Z.to_nat k) row 0)
                                                rs (data idx) |} = r ->
            Critic.loss_of n net obs (LongT idx) target false = r).
  { intros r Hm. unfold Critic.loss_of. rewrite HQ. cbn [bind].
    unfold bind in Hd. unfold bind at 1.
    destruct (Critic.q_sel n (LongT idx) false) as [q|e]; [|discriminate].
    unfold bind at 1. now rewrite Hd. }
  split.
  - intros Htgt Hwt. apply Hstep. apply mse_loss_same; auto.
    rewrite zip_with_length. lia.
  - intro Hnone. apply Hstep. unfold mse_loss.
    now rewrite broadcast_op_none.
Qed.

Lemma actor_indices_loss (beta : R) (net : NeuralNet) (obs : tensor R)
    (idx : tensor Z) (adv : tensor R) (bs : list nat) :
  b_actor net = true -> (0 < action_dim net)%nat ->
  shape obs = bs ++ [state_dim net] ->
  shape idx = bs ++ [1%nat] -> wf_tensor idx ->
  forallb (in_range (action_dim net)) (data idx) = true ->
  exists ps,
    forward net obs = Ok (of_rows bs (action_dim net) ps)
    /\ Categorical_init (of_rows bs (action_dim net) ps)
       = Ok (mkCategorical (of_rows bs (action_dim net) ps))
    /\ length ps = numel bs
    /\ Forall (fun r => length r = action_dim net) ps
    /\ Forall is_distribution ps
    /\ (shape adv = bs ++ [1%nat] -> wf_tensor adv ->
        Actor.loss_of beta net obs (LongT idx) adv false
        = Ok (Rsum (zip3_with (clamped_policy_gradient_term beta)
                              (data adv) (data idx) ps)
              / INR (numel bs)))
    /\ (broadcast_shapes (shape adv) (bs ++ [1%nat]) = None ->
        Actor.loss_of beta net obs (LongT idx) adv false = Err ShapeMismatch).
Proof.
  intros Hb Hpos Hobs Hidx Hwf Hr.
  destruct (forward_policy_ok net obs bs Hb Hpos Hobs)
    as (ps & Hf & Hc & Hn & Hk & Hd).
  assert (Hli : length (data idx) = numel bs).
  { unfold wf_tensor in Hwf. rewrite Hwf, Hidx, numel_snoc. lia. }
  exists ps. repeat (split; [assumption|]).
  set (lp := zip_with (fun row k => nth (Z.to_nat k) row 0)
                      (map (map (fun p => ln (clamp_probs p))) ps) (data idx)).
  assert (Hlp : length lp = numel bs).
  { unfold lp. rewrite zip_with_length, length_map. lia. }
  split.
  - intros Hadv Hwa.
    assert (Hla : length (data adv) = numel bs).
    { unfold wf_tensor in Hwa. rewrite Hwa, Hadv, numel_snoc. lia. }
    rewrite (@actor_loss_assemble beta net obs (LongT idx) adv false bs ps
               (zip_with Rmult (data adv) (map Ropp lp)) Hf Hc Hn Hk).
    + unfold lp.
      now rewrite (@policy_gradient_terms beta _ (data adv) (data idx) ps Hk Hr).
    + unfold Actor.pg_loss. rewrite (@log_prob_indices bs _ ps idx Hn Hk Hidx Hwf Hr).
      cbn [bind]. fold lp. rewrite broadcast_op_same.
      * now rewrite Hadv.
      * now rewrite Hadv.
      * exact Hwa.
      * unfold wf_tensor; cbn [shape data unsqueeze_last tmap].
        rewrite length_map, numel_snoc. lia.
    + rewrite zip_with_length, length_map. lia.
  - intro Hnone. unfold Actor.loss_of. rewrite Hf. cbn [bind]. rewrite Hc. cbn [bind].
    unfold Actor.pg_loss. rewrite (@log_prob_indices bs _ ps idx Hn Hk Hidx Hwf Hr).
    cbn [bind]. now rewrite broadcast_op_none.
Qed.

Lemma actor_negated_advantage_loss (beta : R) (net : NeuralNet) (obs : tensor R)
    (act : any_tensor) (adv : tensor R) (bs : list nat) :
  b_actor net = true -> (0 < action_dim net)%nat ->
  shape obs = bs ++ [state_dim net] ->
  exists ps,
    forward net obs = Ok (of_rows bs (action_dim net) ps)
    /\ length ps = numel bs
    /\ Forall (fun r => length r = action_dim net) ps
    /\ Forall is_distribution ps
    /\ (shape adv = bs ++ [1%nat] -> wf_tensor adv ->
        Actor.loss_of beta net obs act adv true
        = Ok (Rsum (zip_with (negated_advantage_term beta) (data adv) ps)
              / INR (numel bs)))
    /\ (broadcast_shapes (shape adv) (bs ++ [1%nat]) = None ->
        Actor.loss_of beta net obs act adv true = Err ShapeMismatch).
Proof.
  intros Hb Hpos Hobs.
  destruct (forward_policy_ok net obs bs Hb Hpos Hobs)
    as (ps & Hf & Hc & Hn & Hk & Hd).
  exists ps. repeat (split; [assumption|]). split.
  - intros Hadv Hwa.
    assert (Hla : length (data adv) = numel bs).
    { unfold wf_tensor in Hwa. rewrite Hwa, Hadv, numel_snoc. lia. }
    rewrite (@actor_loss_assemble beta net obs act adv true bs ps
               (map Ropp (data adv)) Hf Hc Hn Hk).
    + now rewrite negated_advantage_terms.
    + unfold Actor.pg_loss, tmap. now rewrite Hadv.
    + now rewrite length_map.
  - intro Hnone. unfold Actor.loss_of. rewrite Hf. cbn [bind]. rewrite Hc.
    cbn [bind Actor.pg_loss]. rewrite broadcast_op_none; [reflexivity|].
    unfold entropy, batch_shape. cbn [tmap unsqueeze_last shape probs of_rows].
    now rewrite removelast_snoc.
Qed.

(** ** Clamped probabilities *)

Lemma float_eps_bounds : 0 < float_eps /\ float_eps <= 1 - float_eps.
Proof.
  unfold float_eps. replace (2 ^ 23) with 8388608 by (simpl; ring). lra.
Qed.

Lemma clamp_probs_inside (p : R) :
  float_eps <= p <= 1 - float_eps -> clamp_probs p = p.
Proof.
  intros [H0 H1]. unfold clamp_probs.
  rewrite (Rmax_left p float_eps H0). now apply Rmin_left.
Qed.

Lemma clamp_probs_below (p : R) : p <= float_eps -> clamp_probs p = float_eps.
Proof.
  intro H. unfold clamp_probs. rewrite (Rmax_right p float_eps H).
  apply Rmin_left. apply float_eps_bounds.
Qed.

Lemma policy_gradient_terms_inside (beta : R) :
  forall (advs : list R) (idxs : list Z) (ps : list (list R)),
    Forall (fun kp => float_eps <= nth (Z.to_nat (fst kp)) (snd kp) 0 <= 1 - float_eps)
           (combine idxs ps) ->
    zip3_with (clamped_policy_gradient_term beta) advs idxs ps
    = zip3_with (policy_gradient_term beta) advs idxs ps.
Proof.
  induction advs as [|a advs IH]; intros idxs ps H; [reflexivity|].
  destruct idxs as [|k idxs]; [reflexivity|].
  destruct ps as [|p ps]; [reflexivity|].
  cbn [combine] in H. inversion H as [|? ? Hk Hrest]; subst. cbn [fst snd] in Hk.
  cbn [zip3_with]. rewrite (IH idxs ps Hrest). f_equal.
  unfold clamped_policy_gradient_term, policy_gradient_term.
  now rewrite (@clamp_probs_inside _ Hk).
Qed.

(** ** A last layer with zero weights *)

Lemma dot_zeros (n : nat) : forall x : list R, dot (repeat 0 n) x = 0.
Proof.
  induction n as [|n IH]; intro x; [reflexivity|].
  destruct x as [|a x]; [reflexivity|].
  cbn [repeat]. unfold dot in *. cbn [zip_with].
  change (0 * a + Rsum (zip_with Rmult (repeat 0 n) x) = 0). rewrite IH. ring.
Qed.

Lemma map_nth_seq (b : list R) : map (fun j => nth j b 0) (seq 0 (length b)) = b.
Proof.
  apply nth_ext with (d := 0) (d' := 0).
  - now rewrite length_map, length_seq.
  - intros n Hn. rewrite length_map, length_seq in Hn.
    rewrite (nth_indep _ 0 ((fun j => nth j b 0) 0%nat))
      by now rewrite length_map, length_seq.
    rewrite (map_nth (fun j => nth j b 0)), seq_nth by assumption. reflexivity.
Qed.

Lemma linear_row_zero_weights (L : Linear) (k : nat) (x : list R) :
  weight L = repeat (repeat 0 k) (out_features L) ->
  length (bias L) = out_features L ->
  linear_row L x = bias L.
Proof.
  intros Hw Hb. unfold linear_row.
  transitivity (map (fun j => nth j (bias L) 0) (seq 0 (length (bias L))));
    [|apply map_nth_seq].
  rewrite Hb. apply map_ext_in. intros j Hj. apply in_seq in Hj.
  rewrite Hw.
  rewrite (nth_indep _ [] (repeat 0 k)) by (rewrite repeat_length; lia).
  rewrite nth_repeat, dot_zeros. ring.
Qed.

Lemma raw_scores_last_layer (net : NeuralNet) (obs : tensor R) (bs : list nat) :
  shape obs = bs ++ [state_dim net] ->
  exists hs,
    raw_scores net obs = Ok (of_rows bs (action_dim net) (map (linear_row (l3 net)) hs))
    /\ length hs = numel bs.
Proof.
  intro Hs. unfold raw_scores.
  rewrite (@linear_ok (l1 net) obs); [|rewrite Hs; apply snoc_not_nil
                                     |rewrite Hs; apply last_snoc].
  cbn [bind].
  rewrite linear_ok; cbn [relu tmap of_rows shape out_features l1 in_features l2];
    [|apply snoc_not_nil|now rewrite last_snoc].
  cbn [bind].
  rewrite linear_ok; cbn [relu tmap of_rows shape out_features l2 in_features l3];
    [|apply snoc_not_nil|now rewrite last_snoc].
  rewrite !removelast_snoc, Hs, removelast_snoc.
  eexists; split; [reflexivity|].
  rewrite rows_length. cbn [relu tmap of_rows shape]. now rewrite removelast_snoc.
Qed.

(** With zero weights in the last layer the policy is the softmax of the
    biases, for every example. *)
Lemma forward_policy_of_biases (net : NeuralNet) (obs : tensor R) (bs : list nat) :
  b_actor net = true ->
  shape obs = bs ++ [state_dim net] ->
  w3 (theta net) = repeat (repeat 0 hidden_size) (action_dim net) ->
  length (b3 (theta net)) = action_dim net ->
  forward net obs
  = Ok (of_rows bs (action_dim net) (repeat (softmax_row (b3 (theta net))) (numel bs))).
Proof.
  intros Hb Hs Hw Hl.
  destruct (raw_scores_last_layer net obs bs Hs) as (hs & Hraw & Hn).
  assert (Hrows : map (linear_row (l3 net)) hs = repeat (b3 (theta net)) (numel bs)).
  { rewrite <- Hn. clear Hn Hraw. induction hs as [|h hs IH]; [reflexivity|].
    cbn [map length repeat]. rewrite IH. f_equal.
    now apply (@linear_row_zero_weights (l3 net) hidden_size h). }
  rewrite Hrows in Hraw. rewrite forward_raw, Hb, Hraw. cbn [bind].
  rewrite softmax_of_rows.
  - now rewrite map_repeat.
  - apply repeat_length.
  - apply Forall_forall. intros r Hr. apply repeat_spec in Hr. now subst r.
Qed.

(** ** Broadcasting of shapes in general *)

Lemma broadcast_rev_nil_r (s : list nat) : broadcast_rev s [] = Some s.
Proof. now destruct s. Qed.

Ltac eqb_cases :=
  repeat match goal with
         | |- context [Nat.eqb ?a ?b] => destruct (Nat.eqb_spec a b)
         | H : context [Nat.eqb ?a ?b] |- _ => destruct (Nat.eqb_spec a b)
         end.

Ltac invert_some :=
  repeat match goal with
         | H : Some _ = Some _ |- _ => inversion H; clear H
         | H : None = Some _ |- _ => discriminate H
         end;
  subst.

Lemma broadcast_rev_comm (a : list nat) :
  forall b, broadcast_rev a b = broadcast_rev b a.
Proof.
  induction a as [|x a IH]; intro b.
  - now rewrite broadcast_rev_nil_r.
  - destruct b as [|y b]; [reflexivity|].
    cbn [broadcast_rev]. rewrite (IH b).
    eqb_cases; subst; try reflexivity; try lia.
Qed.

Lemma broadcast_shapes_comm (a b : list nat) :
  broadcast_shapes a b = broadcast_shapes b a.
Proof. unfold broadcast_shapes. now rewrite broadcast_rev_comm. Qed.

Lemma broadcast_shapes_rev (a b s : list nat) :
  broadcast_shapes a b = Some s <-> broadcast_rev (rev a) (rev b) = Some (rev s).
Proof.
  unfold broadcast_shapes. destruct (broadcast_rev (rev a) (rev b)) as [r|]; cbn.
  - split; intro H; injection H as H.
    + subst s. now rewrite rev_involutive.
    + f_equal. rewrite H. apply rev_involutive.
  - split; discriminate.
Qed.

Lemma broadcast_shapes_snoc (a b : list nat) (n : nat) :
  broadcast_shapes (a ++ [n]) (b ++ [n])
  = option_map (fun s => s ++ [n]) (broadcast_shapes a b).
Proof.
  unfold broadcast_shapes. rewrite !rev_app_distr. cbn [rev app broadcast_rev].
  rewrite Nat.eqb_refl. now destruct (broadcast_rev (rev a) (rev b)).
Qed.

Lemma broadcastable_rev_some (a : list nat) :
  forall b, broadcastable_rev a b
            = match broadcast_rev a b with Some _ => true | None => false end.
Proof.
  induction a as [|x a IH]; intro b; [reflexivity|].
  destruct b as [|y b]; [reflexivity|].
  cbn [broadcastable_rev broadcast_rev]. rewrite (IH b).
  destruct (broadcast_rev a b); eqb_cases; subst; try reflexivity; try lia.
Qed.

(** Broadcasting once more against a shape already taken in changes
    nothing. *)
Lemma broadcast_rev_absorb (s : list nat) :
  forall b t s2,
    broadcast_rev s b = Some s ->
    broadcast_rev t s = Some s2 ->
    broadcast_rev s2 b = Some s2.
Proof.
  induction s as [|z s IH]; intros b t s2 H1 H2.
  - cbn in H1. injection H1 as ->. apply broadcast_rev_nil_r.
  - destruct b as [|y b]; [apply broadcast_rev_nil_r|].
    destruct t as [|x t].
    + cbn in H2. injection H2 as <-. exact H1.
    + cbn [broadcast_rev] in H1, H2.
      destruct (broadcast_rev s b) as [r|] eqn:E1;
        [|eqb_cases; discriminate].
      destruct (broadcast_rev t s) as [r2|] eqn:E2;
        [|eqb_cases; discriminate].
      cbn [option_map] in H1, H2.
      assert (Hr : r = s) by (eqb_cases; congruence).
      subst r. pose proof (IH b t r2 E1 E2) as Hrec.
      eqb_cases; invert_some; cbn [broadcast_rev]; rewrite ?Hrec;
        eqb_cases; subst; try reflexivity; try lia; try congruence.
Qed.

Lemma broadcast_rev_result (a : list nat) :
  forall b s, broadcast_rev a b = Some s -> broadcast_rev s b = Some s.
Proof.
  induction a as [|x a IH]; intros b s H.
  - cbn in H. injection H as <-. apply broadcast_rev_same.
  - destruct b as [|y b]; [apply broadcast_rev_nil_r|].
    cbn [broadcast_rev] in H.
    destruct (broadcast_rev a b) as [r|] eqn:E; [|eqb_cases; discriminate].
    pose proof (IH b r E) as Hrec. cbn [option_map] in H.
    eqb_cases; invert_some; cbn [broadcast_rev]; rewrite ?Hrec;
      eqb_cases; subst; try reflexivity; try lia; try congruence.
Qed.

Lemma broadcast_shapes_absorb (bs ab tb s s2 : list nat) :
  broadcast_shapes bs ab = Some s ->
  broadcast_shapes tb s = Some s2 ->
  broadcast_shapes s2 bs = Some s2.
Proof.
  intros H1 H2. rewrite broadcast_shapes_comm in H1.
  apply broadcast_shapes_rev in H1. apply broadcast_shapes_rev in H2.
  apply broadcast_shapes_rev.
  apply (@broadcast_rev_absorb (rev s) (rev bs) (rev tb) (rev s2)); [|exact H2].
  now apply broadcast_rev_result with (rev ab).
Qed.

Lemma batch_broadcast_same (bs : list nat) : batch_broadcast bs bs bs = Some bs.
Proof. unfold batch_broadcast. now rewrite !broadcast_shapes_same. Qed.

(** ** What the shapes decide in each step *)

Lemma broadcast_op_outcome (f : R -> R -> R) (a b : tensor R)
    (sa sb : list nat) (k : nat) :
  shape a = sa ++ [k] -> shape b = sb ++ [k] ->
  match broadcast_shapes sa sb with
  | None => broadcast_op f a b = Err ShapeMismatch
  | Some s => exists c, broadcast_op f a b = Ok c /\ shape c = s ++ [k]
  end.
Proof.
  intros Ha Hb. unfold broadcast_op. rewrite Ha, Hb, broadcast_shapes_snoc.
  destruct (broadcast_shapes sa sb) as [s|]; cbn [option_map]; [|reflexivity].
  eexists; split; reflexivity.
Qed.

Lemma dot_prd_outcome (Q q : tensor R) (bs ab : list nat) (n : nat) :
  shape Q = bs ++ [n] -> shape q = ab ++ [n] ->
  match broadcast_shapes bs ab with
  | None => Critic.dot_prd Q q = Err ShapeMismatch
  | Some s => exists d, Critic.dot_prd Q q = Ok d /\ shape d = s ++ [1%nat]
  end.
Proof.
  intros HQ Hq. pose proof (broadcast_op_outcome Rmult Q q bs ab n HQ Hq) as H.
  unfold Critic.dot_prd. destruct (broadcast_shapes bs ab) as [s|].
  - destruct H as (c & -> & Hc). cbn [bind]. eexists; split; [reflexivity|].
    unfold sum_last_keepdims. rewrite Hc.
    destruct (s ++ [n]) eqn:E; [now destruct s|]. rewrite <- E.
    cbn [shape]. now rewrite removelast_snoc.
  - now rewrite H.
Qed.

Lemma mse_loss_outcome (target d : tensor R) (tb s : list nat) :
  shape target = tb ++ [1%nat] -> shape d = s ++ [1%nat] ->
  match mse_loss target d with
  | Ok _ => Ok tt
  | Err e => Err e
  end = shape_outcome (broadcast_shapes tb s).
Proof.
  intros Ht Hd.
  pose proof (broadcast_op_outcome (fun a b => (a - b) ^ 2) target d tb s 1 Ht Hd) as H.
  unfold mse_loss. destruct (broadcast_shapes tb s) as [s2|].
  - destruct H as (c & -> & _). reflexivity.
  - now rewrite H.
Qed.

Lemma critic_loss_outcome (n : nat) (nn : NeuralNet) (obs : tensor R)
    (act : any_tensor) (target q : tensor R) (flag : bool) (bs ab tb : list nat)
    (rs : list (list R)) :
  forward nn obs = Ok (of_rows bs n rs) ->
  Critic.q_sel n act flag = Ok q -> shape q = ab ++ [n] ->
  shape target = tb ++ [1%nat] ->
  match Critic.loss_of n nn obs act target flag with
  | Ok _ => Ok tt
  | Err e => Err e
  end = shape_outcome (batch_broadcast bs ab tb).
Proof.
  intros HQ Hq Hs Ht. unfold Critic.loss_of. rewrite HQ. cbn [bind].
  rewrite Hq. cbn [bind].
  pose proof (@dot_prd_outcome (of_rows bs n rs) q bs ab n eq_refl Hs) as Hd.
  unfold batch_broadcast. destruct (broadcast_shapes bs ab) as [s|].
  - destruct Hd as (d & -> & Hd). cbn [bind]. now apply mse_loss_outcome.
  - now rewrite Hd.
Qed.

Lemma q_sel_out_of_range (n : nat) (idx : tensor Z) (ab : list nat) :
  shape idx = ab ++ [1%nat] -> wf_tensor idx ->
  forallb (in_range n) (data idx) = false ->
  Critic.q_sel n (LongT idx) false = Err IndexOutOfRange.
Proof.
  intros Hidx Hwf Hr. unfold Critic.q_sel. cbn [negb any_squeeze_last long].
  rewrite (squeeze_last_snoc1 idx ab Hidx), one_hot_out_of_range; auto.
  unfold wf_tensor in *; cbn [shape data]. rewrite Hwf, Hidx, numel_snoc. lia.
Qed.

Lemma log_prob_outcome (bs ab : list nat) (n : nat) (ps : list (list R))
    (idx : tensor Z) :
  shape idx = ab ++ [1%nat] ->
  match broadcast_shapes bs ab with
  | None =>
      log_prob (mkCategorical (of_rows bs n ps)) (any_squeeze_last (LongT idx))
      = Err ShapeMismatch
  | Some s =>
      if forallb (in_range n) (data idx)
      then exists lp,
             log_prob (mkCategorical (of_rows bs n ps)) (any_squeeze_last (LongT idx))
             = Ok lp /\ shape lp = s
      else log_prob (mkCategorical (of_rows bs n ps)) (any_squeeze_last (LongT idx))
           = Err IndexOutOfRange
  end.
Proof.
  intro Hidx. cbn [any_squeeze_last]. rewrite (squeeze_last_snoc1 idx ab Hidx).
  unfold log_prob, batch_shape, num_events.
  cbn [any_shape shape probs of_rows long data in_support].
  rewrite removelast_snoc, last_snoc, broadcastable_rev_some.
  rewrite (broadcast_shapes_comm bs ab). unfold broadcast_shapes.
  destruct (broadcast_rev (rev ab) (rev bs)) as [r|]; cbn [option_map negb];
    [|reflexivity].
  destruct (forallb (in_range n) (data idx)); cbn [negb]; [|reflexivity].
  eexists; split; reflexivity.
Qed.

Lemma actor_loss_outcome (beta : R) (nn : NeuralNet) (obs : tensor R)
    (act : any_tensor) (adv pg : tensor R) (flag : bool) (bs s2 : list nat)
    (n : nat) (ps : list (list R)) :
  forward nn obs = Ok (of_rows bs n ps) ->
  Categorical_init (of_rows bs n ps) = Ok (mkCategorical (of_rows bs n ps)) ->
  Actor.pg_loss (mkCategorical (of_rows bs n ps)) act adv flag = Ok pg ->
  shape pg = s2 ++ [1%nat] ->
  match Actor.loss_of beta nn obs act adv flag with
  | Ok _ => Ok tt
  | Err e => Err e
  end = shape_outcome (broadcast_shapes s2 bs).
Proof.
  intros Hf Hc Hpg Hs. unfold Actor.loss_of. rewrite Hf. cbn [bind].
  rewrite Hc. cbn [bind]. rewrite Hpg. cbn [bind].
  pose proof (@broadcast_op_outcome Rminus pg
                (tmap (Rmult beta)
                      (unsqueeze_last (entropy (mkCategorical (of_rows bs n ps)))))
                s2 bs 1 Hs) as H.
  destruct (broadcast_shapes s2 bs) as [s|].
  - destruct H as (c & -> & _); [|reflexivity].
    unfold entropy, batch_shape. cbn [tmap unsqueeze_last shape probs of_rows].
    now rewrite removelast_snoc.
  - rewrite H; [reflexivity|].
    unfold entropy, batch_shape. cbn [tmap unsqueeze_last shape probs of_rows].
    now rewrite removelast_snoc.
Qed.

Lemma record_loss_not_nil (hist : list R) (l : R) : record_loss hist l <> [].
Proof.
  unfold record_loss. destruct (Nat.ltb 20 (length (hist ++ [l]))) eqn:E.
  - apply Nat.ltb_lt in E. destruct (hist ++ [l]) as [|x [|y t]]; simpl in *; try lia.
    discriminate.
  - now destruct hist.
Qed.

Section TrainerTheorems.
Context {B : Backend}.

(** C4. Starting from a freshly constructed critic or actor, after any
    sequence of update calls of which n succeed, the loss history has
    length min(n, 20) and is the losses of the last 20 successful calls in
    call order; the diagnostic is the arithmetic mean of the history as
    soon as one update has succeeded. *)
Theorem loss_history_window (cname aname : String.string) (nf na : nat)
    (lr beta : R) (cuda : bool) (p0 : params)
    (ccalls : list Critic.call) (acalls : list Actor.call) :
  let c0 := Critic.init cname nf na lr cuda p0 in
  let a0 := Actor.init aname nf na lr beta cuda p0 in
  let c := snd (Critic.run_updates c0 ccalls) in
  let a := snd (Actor.run_updates a0 acalls) in
  let nc := count_ok (fst (Critic.run_updates c0 ccalls)) in
  let n_a := count_ok (fst (Actor.run_updates a0 acalls)) in
  (length (Critic.successful_losses c0 ccalls) = nc
   /\ length (Critic.losses c) = Nat.min nc 20
   /\ Critic.losses c = skipn (nc - 20) (Critic.successful_losses c0 ccalls)
   /\ Critic.critic_loss c =
        match nc with
        | O => PosInf
        | S _ => Finite (Rsum (Critic.losses c) / INR (length (Critic.losses c)))
        end)
  /\
  (length (Actor.successful_losses a0 acalls) = n_a
   /\ length (Actor.losses a) = Nat.min n_a 20
   /\ Actor.losses a = skipn (n_a - 20) (Actor.successful_losses a0 acalls)
   /\ Actor.actor_loss a =
        match n_a with
        | O => PosInf
        | S _ => Finite (Rsum (Actor.losses a) / INR (length (Actor.losses a)))
        end).
Proof.
  cbn zeta. split.
  - destruct (@critic_run_window B ccalls (Critic.init cname nf na lr cuda p0) [])
      as (H1 & H2 & H3); [reflexivity|reflexivity|].
    cbn [app] in H1, H2. rewrite <- H3.
    split; [reflexivity|]. split; [rewrite H1; apply window_length|].
    split; [exact H1|]. rewrite H2. unfold diagnostic_of.
    destruct (Critic.successful_losses _ ccalls) as [|x tr] eqn:E; [reflexivity|].
    rewrite <- H1. cbn [length]. apply np_mean_finite.
    rewrite H1. apply window_not_nil. discriminate.
  - destruct (@actor_run_window B acalls (Actor.init aname nf na lr beta cuda p0) [])
      as (H1 & H2 & H3); [reflexivity|reflexivity|].
    cbn [app] in H1, H2. rewrite <- H3.
    split; [reflexivity|]. split; [rewrite H1; apply window_length|].
    split; [exact H1|]. rewrite H2. unfold diagnostic_of.
    destruct (Actor.successful_losses _ acalls) as [|x tr] eqn:E; [reflexivity|].
    rewrite <- H1. cbn [length]. apply np_mean_finite.
    rewrite H1. apply window_not_nil. discriminate.
Qed.

(** C10. A freshly constructed critic or actor has an empty loss history
    and the diagnostic +infinity, and keeps both as long as no update has
    succeeded; an update that succeeds takes the mean of a history that
    holds at least its own loss, so the diagnostic is never the NaN of an
    empty mean. *)
Theorem fresh_trainer_diagnostic (cname aname : String.string) (nf na : nat)
    (lr beta : R) (cuda : bool) (p0 : params) :
  let c0 := Critic.init cname nf na lr cuda p0 in
  let a0 := Actor.init aname nf na lr beta cuda p0 in
  (Critic.losses c0 = [] /\ Critic.critic_loss c0 = PosInf)
  /\ (Actor.losses a0 = [] /\ Actor.actor_loss a0 = PosInf)
  /\ (forall calls,
        count_ok (fst (Critic.run_updates c0 calls)) = 0%nat ->
        Critic.losses (snd (Critic.run_updates c0 calls)) = []
        /\ Critic.critic_loss (snd (Critic.run_updates c0 calls)) = PosInf)
  /\ (forall calls,
        count_ok (fst (Actor.run_updates a0 calls)) = 0%nat ->
        Actor.losses (snd (Actor.run_updates a0 calls)) = []
        /\ Actor.actor_loss (snd (Actor.run_updates a0 calls)) = PosInf)
  /\ (forall self obs act target flag,
        fst (Critic.batch_update self obs act target flag) = Ok tt ->
        let self' := snd (Critic.batch_update self obs act target flag) in
        Critic.losses self' <> []
        /\ Critic.critic_loss self' = np_mean (Critic.losses self')
        /\ Critic.critic_loss self' <> NaN)
  /\ (forall self obs act adv flag,
        fst (Actor.batch_update self obs act adv flag) = Ok tt ->
        let self' := snd (Actor.batch_update self obs act adv flag) in
        Actor.losses self' <> []
        /\ Actor.actor_loss self' = np_mean (Actor.losses self')
        /\ Actor.actor_loss self' <> NaN).
Proof.
  cbn zeta. split; [split; reflexivity|]. split; [split; reflexivity|].
  split; [|split; [|split]].
  - intros calls Hn.
    destruct (@critic_run_window B calls (Critic.init cname nf na lr cuda p0) [])
      as (H1 & H2 & H3); [reflexivity|reflexivity|].
    rewrite Hn in H3. apply length_zero_iff_nil in H3.
    cbn [app] in H1, H2. rewrite H3 in H1, H2. now rewrite H1, H2.
  - intros calls Hn.
    destruct (@actor_run_window B calls (Actor.init aname nf na lr beta cuda p0) [])
      as (H1 & H2 & H3); [reflexivity|reflexivity|].
    rewrite Hn in H3. apply length_zero_iff_nil in H3.
    cbn [app] in H1, H2. rewrite H3 in H1, H2. now rewrite H1, H2.
  - intros self obs act target flag Hok.
    pose proof (critic_update_cases self obs act target flag) as Hc.
    destruct (Critic.loss_of _ _ _ _ _ _) as [loss|e].
    + destruct Hc as (self' & Hu & Hl & Hd & _). rewrite Hu. cbn [snd].
      assert (Hne : Critic.losses self' <> []) by (rewrite Hl; apply record_loss_not_nil).
      repeat split; auto. rewrite Hd, (np_mean_finite Hne). discriminate.
    + rewrite Hc in Hok. discriminate.
  - intros self obs act adv flag Hok.
    pose proof (actor_update_cases self obs act adv flag) as Hc.
    destruct (Actor.loss_of _ _ _ _ _ _) as [loss|e].
    + destruct Hc as (self' & Hu & Hl & Hd & _). rewrite Hu. cbn [snd].
      assert (Hne : Actor.losses self' <> []) by (rewrite Hl; apply record_loss_not_nil).
      repeat split; auto. rewrite Hd, (np_mean_finite Hne). discriminate.
    + rewrite Hc in Hok. discriminate.
Qed.

(** C9. Evaluating the critic is a function of the weights and the input:
    two calls on the same input give the same output, whatever the [grad]
    flags and whatever else the trainer holds, and the trainer (weights,
    optimizer state, loss history, diagnostic) is left as it was. *)
Theorem run_main_pure (self other : Critic.CriticNetwork) (obs : tensor R)
    (g1 g2 g3 : bool) :
  let r1 := Critic.run_main self obs g1 in
  let r2 := Critic.run_main (snd r1) obs g2 in
  fst r1 = fst r2
  /\ snd r1 = self
  /\ snd r2 = self
  /\ fst r1 = forward (Critic.net self) obs
  /\ (Critic.net other = Critic.net self ->
      fst (Critic.run_main other obs g3) = fst r1).
Proof.
  cbn zeta. unfold Critic.run_main.
  destruct g1, g2, g3; cbn [negb fst snd]; repeat split; auto;
    intros ->; reflexivity.
Qed.

(** C5. An update call that ends in an error leaves the network weights,
    the optimizer state, the loss history and the diagnostic as they were:
    only the gradient buffers have been cleared. *)
Theorem failed_update_keeps_state (c : Critic.CriticNetwork) (a : Actor.ActorNetwork)
    (obs : tensor R) (act : any_tensor) (target adv : tensor R) (flag : bool) :
  (forall e,
     fst (Critic.batch_update c obs act target flag) = Err e ->
     let c' := snd (Critic.batch_update c obs act target flag) in
     Critic.net c' = Critic.net c
     /\ Critic.optimizer c' = Critic.optimizer c
     /\ Critic.losses c' = Critic.losses c
     /\ Critic.critic_loss c' = Critic.critic_loss c)
  /\
  (forall e,
     fst (Actor.batch_update a obs act adv flag) = Err e ->
     let a' := snd (Actor.batch_update a obs act adv flag) in
     Actor.net a' = Actor.net a
     /\ Actor.optimizer a' = Actor.optimizer a
     /\ Actor.losses a' = Actor.losses a
     /\ Actor.actor_loss a' = Actor.actor_loss a).
Proof.
  split; intros e He; cbn zeta.
  - pose proof (critic_update_cases c obs act target flag) as Hc.
    destruct (Critic.loss_of _ _ _ _ _ _) as [loss|e'].
    + destruct Hc as (c' & Hu & _). rewrite Hu in He. discriminate.
    + rewrite Hc. cbn. auto.
  - pose proof (actor_update_cases a obs act adv flag) as Hc.
    destruct (Actor.loss_of _ _ _ _ _ _) as [loss|e'].
    + destruct Hc as (a' & Hu & _). rewrite Hu in He. discriminate.
    + rewrite Hc. cbn. auto.
Qed.

End TrainerTheorems.

Lemma failed_update_keeps_state_witness :
  (fst (Critic.batch_update critic_232 obs_122 act_bad target_121 false)
     = Err IndexOutOfRange
   /\ Critic.net (snd (Critic.batch_update critic_232 obs_122 act_bad target_121 false))
       = Critic.net critic_232
   /\ Critic.losses (snd (Critic.batch_update critic_232 obs_122 act_bad target_121 false))
       = Critic.losses critic_232)
  /\
  (fst (Actor.batch_update actor_232 obs_123 act_good target_121 false)
     = Err ShapeMismatch
   /\ Actor.net (snd (Actor.batch_update actor_232 obs_123 act_good target_121 false))
       = Actor.net actor_232
   /\ Actor.losses (snd (Actor.batch_update actor_232 obs_123 act_good target_121 false))
       = Actor.losses actor_232).
Proof.
  destruct (@failed_update_keeps_state idle_backend critic_232 actor_232 obs_122
              act_bad target_121 target_121 false) as [Hc _].
  destruct (@failed_update_keeps_state idle_backend critic_232 actor_232 obs_123
              act_good target_121 target_121 false) as [_ Ha].
  split.
  - split; [reflexivity|].
    destruct (Hc IndexOutOfRange) as (H1 & _ & H3 & _); [reflexivity|]. auto.
  - split; [reflexivity|].
    destruct (Ha ShapeMismatch) as (H1 & _ & H3 & _); [reflexivity|]. auto.
Defined.

Section UpdateTheorems.
Context {B : Backend}.

(** C2. A critic update on action indices (observations of shape
    (batch.., features), indices and targets of shape (batch.., 1), every
    index within [0, num_outs)): the selection tensor holds, per example,
    the one-hot row of its index; the predicted scalar of an example is
    the network output at its index; the loss is the mean of the squared
    differences between targets and predictions, and it is the loss the
    update records. *)
Theorem critic_one_hot_update (self : Critic.CriticNetwork) (obs : tensor R)
    (idx : tensor Z) (target : tensor R) (bs : list nat) :
  b_actor (Critic.net self) = false ->
  action_dim (Critic.net self) = Critic.num_outs self ->
  (0 < Critic.num_outs self)%nat ->
  shape obs = bs ++ [state_dim (Critic.net self)] ->
  shape idx = bs ++ [1%nat] -> wf_tensor idx ->
  shape target = bs ++ [1%nat] -> wf_tensor target ->
  forallb (in_range (Critic.num_outs self)) (data idx) = true ->
  let n := Critic.num_outs self in
  exists Q,
    forward (Critic.net self) obs = Ok Q
    /\ shape Q = bs ++ [n]
    /\ Critic.q_sel n (LongT idx) false
       = Ok (of_rows bs n (map (fun k => map IZR (one_hot_row n k)) (data idx)))
    /\ (forall k j, (j < n)%nat ->
          nth j (one_hot_row n k) 0%Z = if (Z.of_nat j =? k)%Z then 1%Z else 0%Z)
    /\ (forall k, length (one_hot_row n k) = n)
    /\ one_hot_row 4 2 = [0; 0; 1; 0]%Z
    /\ let pred := zip_with (fun row k => nth (Z.to_nat k) row 0) (rows Q) (data idx) in
       let loss := Rsum (zip_with (fun t p => (t - p) ^ 2) (data target) pred)
                   / INR (numel bs) in
       length pred = numel bs
       /\ (do q <- Critic.q_sel n (LongT idx) false; Critic.dot_prd Q q)
          = Ok {| shape := bs ++ [1%nat]; data := pred |}
       /\ Critic.loss_of n (Critic.net self) obs (LongT idx) target false = Ok loss
       /\ fst (Critic.batch_update self obs (LongT idx) target false) = Ok tt
       /\ Critic.losses (snd (Critic.batch_update self obs (LongT idx) target false))
          = record_loss (Critic.losses self) loss.
Proof.
  intros Hb Hdim Hpos Hobs Hidx Hwf Htgt Hwt Hr n.
  destruct (@critic_indices_loss (Critic.net self) n obs idx target bs
              Hb Hdim Hpos Hobs Hidx Hwf Hr) as (rs & HQ & Hn & Hk & Hd & Hloss & _).
  specialize (Hloss Htgt Hwt).
  assert (Hlen : length (data idx) = numel bs).
  { unfold wf_tensor in Hwf. rewrite Hwf, Hidx, numel_snoc. lia. }
  exists (of_rows bs n rs). rewrite (rows_of_rows _ Hn Hk). cbn zeta.
  split; [exact HQ|]. split; [reflexivity|].
  split; [exact (@q_sel_one_hot n idx bs Hpos Hidx Hwf Hr)|].
  split; [intros k j Hj; now apply one_hot_row_nth|].
  split; [intro k; apply one_hot_row_length|]. split; [reflexivity|].
  split; [rewrite zip_with_length; lia|]. split; [exact Hd|]. split; [exact Hloss|].
  pose proof (critic_update_cases self obs (LongT idx) target false) as Hc.
  fold n in Hc. rewrite Hloss in Hc. destruct Hc as (self' & Hu & Hl & _).
  rewrite Hu. auto.
Qed.

End UpdateTheorems.

Lemma critic_one_hot_update_witness :
  fst (Critic.batch_update critic_232 obs_122 act_good target_121 false) = Ok tt
  /\ exists Q,
       forward (Critic.net critic_232) obs_122 = Ok Q
       /\ Critic.loss_of 3 (Critic.net critic_232) obs_122 act_good target_121 false
          = Ok (Rsum (zip_with (fun t p => (t - p) ^ 2) (data target_121)
                        (zip_with (fun row k => nth (Z.to_nat k) row 0)
                                  (rows Q) (data idx_good)))
                / INR (numel [1; 2]%nat)).
Proof.
  destruct (@critic_one_hot_update idle_backend critic_232 obs_122 idx_good
              target_121 [1; 2]%nat)
    as (Q & HQ & _ & _ & _ & _ & _ & _ & _ & Hloss & Hok & _);
    try reflexivity.
  - cbn; lia.
  - split; [exact Hok|]. exists Q. split; [exact HQ|exact Hloss].
Defined.

Section SamplingTheorems.
Context {B : Backend}.

Lemma sample_rows_length (rs : list (list R)) :
  forall g : generator, length (fst (Actor.sample_rows g rs)) = length rs.
Proof.
  induction rs as [|r rs IH]; intro g; [reflexivity|].
  cbn [Actor.sample_rows]. destruct (multinomial g r) as [k g'].
  specialize (IH g'). destruct (Actor.sample_rows g' rs) as [ks g''].
  cbn [fst length] in *. now rewrite IH.
Qed.

(** C7, as the code behaves. For an observation batch of shape
    (S x B x features) [sample_action] returns one index per example in a
    tensor of shape (S x B): the batch shape of the distribution, with no
    trailing dimension of size 1. *)
Theorem sample_action_shape (self : Actor.ActorNetwork) (g : generator)
    (obs : tensor R) (grad : bool) (S B0 : nat) :
  b_actor (Actor.net self) = true ->
  (0 < action_dim (Actor.net self))%nat ->
  shape obs = [S; B0; state_dim (Actor.net self)] ->
  exists act,
    fst (Actor.sample_action self g obs grad) = Ok act
    /\ shape act = [S; B0]
    /\ length (data act) = (S * B0)%nat
    /\ shape act <> [S; B0; 1%nat].
Proof.
  intros Hb Hpos Hs.
  destruct (forward_policy_ok (Actor.net self) obs [S; B0] Hb Hpos Hs)
    as (ps & Hf & Hc & Hn & Hk & _).
  unfold Actor.sample_action.
  replace (if negb grad then forward (Actor.net self) obs
           else forward (Actor.net self) obs)
    with (forward (Actor.net self) obs) by now destruct grad.
  rewrite Hf. cbn [bind]. rewrite Hc. unfold Actor.sample.
  cbn [probs]. rewrite (rows_of_rows _ Hn Hk).
  pose proof (sample_rows_length ps g) as Hlen.
  destruct (Actor.sample_rows g ps) as [ks g']. cbn [fst] in *.
  eexists; split; [reflexivity|]. cbn [shape data].
  unfold batch_shape, of_rows; cbn [probs shape].
  change ([S; B0] ++ [action_dim (Actor.net self)]) with
    ([S; B0; action_dim (Actor.net self)]).
  cbn [removelast]. split; [reflexivity|]. split.
  - rewrite Hlen, Hn. cbn. lia.
  - discriminate.
Qed.

End SamplingTheorems.

Lemma sample_action_shape_witness :
  exists act,
    fst (Actor.sample_action actor_232 tt obs_122 false) = Ok act
    /\ shape act = [1; 2]%nat
    /\ length (data act) = (1 * 2)%nat
    /\ shape act <> [1; 2; 1]%nat.
Proof.
  apply (@sample_action_shape idle_backend actor_232 tt obs_122 false 1 2).
  - reflexivity.
  - cbn; lia.
  - reflexivity.
Defined.

Section ActorUpdateTheorems.
Context {B : Backend}.

(** C3, amended. An actor update on action indices (observations of shape
    (batch.., features), indices and advantages of shape (batch.., 1),
    every index a valid action): the loss is the mean, over the examples,
    of the advantage times the negative logarithm of the taken action's
    probability clamped into [eps, 1 - eps], eps = 2^-23, minus beta times
    the entropy of that example's distribution; it is the loss the update
    records.  When every taken action's probability lies in
    [eps, 1 - eps], the clamped logarithm is the log-probability itself. *)
Theorem actor_policy_gradient_loss (self : Actor.ActorNetwork) (obs : tensor R)
    (idx : tensor Z) (adv : tensor R) (bs : list nat) :
  b_actor (Actor.net self) = true ->
  (0 < action_dim (Actor.net self))%nat ->
  shape obs = bs ++ [state_dim (Actor.net self)] ->
  shape idx = bs ++ [1%nat] -> wf_tensor idx ->
  shape adv = bs ++ [1%nat] -> wf_tensor adv ->
  forallb (in_range (action_dim (Actor.net self))) (data idx) = true ->
  exists P dist,
    forward (Actor.net self) obs = Ok P
    /\ Categorical_init P = Ok dist
    /\ probs dist = P
    /\ Forall is_distribution (rows P)
    /\ let loss := Rsum (zip3_with (clamped_policy_gradient_term (Actor.beta self))
                                   (data adv) (data idx) (rows P))
                   / INR (numel bs) in
       length (zip3_with (clamped_policy_gradient_term (Actor.beta self))
                         (data adv) (data idx) (rows P)) = numel bs
       /\ Actor.loss_of (Actor.beta self) (Actor.net self) obs (LongT idx) adv false
          = Ok loss
       /\ fst (Actor.batch_update self obs (LongT idx) adv false) = Ok tt
       /\ Actor.losses (snd (Actor.batch_update self obs (LongT idx) adv false))
          = record_loss (Actor.losses self) loss
       /\ (Forall (fun kp => float_eps <= nth (Z.to_nat (fst kp)) (snd kp) 0
                             <= 1 - float_eps)
                  (combine (data idx) (rows P)) ->
           loss = Rsum (zip3_with (policy_gradient_term (Actor.beta self))
                                  (data adv) (data idx) (rows P))
                  / INR (numel bs)).
Proof.
  intros Hb Hpos Hobs Hidx Hwf Hadv Hwa Hr.
  destruct (@actor_indices_loss (Actor.beta self) (Actor.net self) obs idx adv bs
              Hb Hpos Hobs Hidx Hwf Hr) as (ps & Hf & Hc & Hn & Hk & Hd & Hloss & _).
  specialize (Hloss Hadv Hwa).
  assert (Hli : length (data idx) = numel bs).
  { unfold wf_tensor in Hwf. rewrite Hwf, Hidx, numel_snoc. lia. }
  assert (Hla : length (data adv) = numel bs).
  { unfold wf_tensor in Hwa. rewrite Hwa, Hadv, numel_snoc. lia. }
  exists (of_rows bs (action_dim (Actor.net self)) ps),
         (mkCategorical (of_rows bs (action_dim (Actor.net self)) ps)).
  rewrite (rows_of_rows _ Hn Hk). cbn zeta.
  split; [exact Hf|]. split; [exact Hc|]. split; [reflexivity|]. split; [exact Hd|].
  split; [now apply zip3_with_length|]. split; [exact Hloss|].
  pose proof (actor_update_cases self obs (LongT idx) adv false) as Hu.
  rewrite Hloss in Hu. destruct Hu as (self' & Hu & Hl & _). rewrite Hu.
  split; [reflexivity|]. split; [exact Hl|].
  intro Hin. now rewrite policy_gradient_terms_inside.
Qed.

(** C8. An actor update with [action_distribution] set (observations of
    shape (batch.., features), advantages of shape (batch.., 1)): the
    policy-gradient term is the negated advantage, whatever [act] holds;
    the loss is the mean over the examples of the negated advantage minus
    beta times the entropy of the example's distribution. *)
Theorem actor_distribution_loss (self : Actor.ActorNetwork) (obs : tensor R)
    (act : any_tensor) (adv : tensor R) (bs : list nat) :
  b_actor (Actor.net self) = true ->
  (0 < action_dim (Actor.net self))%nat ->
  shape obs = bs ++ [state_dim (Actor.net self)] ->
  shape adv = bs ++ [1%nat] -> wf_tensor adv ->
  exists P,
    forward (Actor.net self) obs = Ok P
    /\ Forall is_distribution (rows P)
    /\ (forall dist, Actor.pg_loss dist act adv true = Ok (tmap Ropp adv))
    /\ (forall act',
          Actor.batch_update self obs act' adv true
          = Actor.batch_update self obs act adv true)
    /\ let loss := Rsum (zip_with (negated_advantage_term (Actor.beta self))
                                  (data adv) (rows P))
                   / INR (numel bs) in
       length (zip_with (negated_advantage_term (Actor.beta self))
                        (data adv) (rows P)) = numel bs
       /\ Actor.loss_of (Actor.beta self) (Actor.net self) obs act adv true = Ok loss
       /\ fst (Actor.batch_update self obs act adv true) = Ok tt
       /\ Actor.losses (snd (Actor.batch_update self obs act adv true))
          = record_loss (Actor.losses self) loss.
Proof.
  intros Hb Hpos Hobs Hadv Hwa.
  destruct (@actor_negated_advantage_loss (Actor.beta self) (Actor.net self) obs act
              adv bs Hb Hpos Hobs) as (ps & Hf & Hn & Hk & Hd & Hloss & _).
  specialize (Hloss Hadv Hwa).
  assert (Hla : length (data adv) = numel bs).
  { unfold wf_tensor in Hwa. rewrite Hwa, Hadv, numel_snoc. lia. }
  exists (of_rows bs (action_dim (Actor.net self)) ps).
  rewrite (rows_of_rows _ Hn Hk). cbn zeta.
  split; [exact Hf|]. split; [exact Hd|]. split; [reflexivity|].
  split; [reflexivity|].
  split; [rewrite zip_with_length; lia|]. split; [exact Hloss|].
  pose proof (actor_update_cases self obs act adv true) as Hu.
  rewrite Hloss in Hu. destruct Hu as (self' & Hu & Hl & _). rewrite Hu. auto.
Qed.

End ActorUpdateTheorems.

Lemma actor_policy_gradient_loss_witness :
  fst (Actor.batch_update actor_232 obs_122 act_good target_121 false) = Ok tt
  /\ exists P,
       forward (Actor.net actor_232) obs_122 = Ok P
       /\ Actor.loss_of (1 / 10) (Actor.net actor_232) obs_122 act_good target_121 false
          = Ok (Rsum (zip3_with (clamped_policy_gradient_term (1 / 10))
                                (data target_121) (data idx_good) (rows P))
                / INR (numel [1; 2]%nat)).
Proof.
  destruct (@actor_policy_gradient_loss idle_backend actor_232 obs_122 idx_good
              target_121 [1; 2]%nat)
    as (P & dist & HP & _ & _ & _ & _ & Hloss & Hok & _);
    try reflexivity.
  - cbn; lia.
  - split; [exact Hok|]. exists P. split; [exact HP|exact Hloss].
Defined.

Lemma peaked_probability_small :
  nth 1 (softmax_row [10000000; 0; 0]) 0 < float_eps
  /\ 0 < nth 1 (softmax_row [10000000; 0; 0]) 0.
Proof.
  cbn [softmax_row map nth Rsum fold_right]. rewrite exp_0.
  pose proof (exp_ineq1 10000000) as He.
  assert (Hc : 10000001 < exp 10000000) by (apply He; lra).
  unfold float_eps. replace (2 ^ 23) with 8388608 by (simpl; ring).
  split.
  - unfold Rdiv. rewrite Rmult_1_l. apply Rinv_lt_contravar; [|lra].
    apply Rmult_lt_0_compat; lra.
  - apply Rdiv_lt_0_compat; lra.
Qed.

(** C3, as stated, fails: when the taken action has a probability below
    eps = 2^-23 the code takes the logarithm of eps in its place.  For the
    actor with biases (10000000, 0, 0), one observation, the action 1 and
    advantage 1, the loss is -ln eps (about 15.94), not the advantage
    times the negative log-probability. *)
Lemma policy_gradient_loss_is_clamped :
  exists P L,
    forward (Actor.net actor_peaked) obs_112 = Ok P
    /\ Actor.loss_of (Actor.beta actor_peaked) (Actor.net actor_peaked) obs_112
                     (LongT idx_1) adv_1 false = Ok L
    /\ L = - ln float_eps
    /\ L <> Rsum (zip3_with (policy_gradient_term (Actor.beta actor_peaked))
                            (data adv_1) (data idx_1) (rows P))
            / INR (numel [1; 1]%nat).
Proof.
  assert (Hf : forward (Actor.net actor_peaked) obs_112
               = Ok (of_rows [1; 1]%nat 3 [softmax_row [10000000; 0; 0]])).
  { apply (@forward_policy_of_biases (Actor.net actor_peaked) obs_112 [1; 1]%nat);
      reflexivity. }
  destruct (@actor_indices_loss (Actor.beta actor_peaked) (Actor.net actor_peaked)
              obs_112 idx_1 adv_1 [1; 1]%nat)
    as (ps & Hf' & _ & Hn & Hk & _ & Hloss & _); try reflexivity.
  { cbn; lia. }
  specialize (Hloss eq_refl eq_refl).
  assert (Hps : ps = [softmax_row [10000000; 0; 0]]).
  { rewrite Hf in Hf'. injection Hf' as Hc. cbn in Hn.
    destruct ps as [|r [|r' ps]]; try discriminate Hn.
    cbn [concat] in Hc. rewrite app_nil_r in Hc. now subst r. }
  subst ps. destruct peaked_probability_small as [Hsmall Hpos].
  exists (of_rows [1; 1]%nat 3 [softmax_row [10000000; 0; 0]]). eexists.
  split; [exact Hf|]. split; [exact Hloss|].
  rewrite (@rows_of_rows R [1; 1]%nat 3 _ Hn Hk).
  remember (softmax_row [10000000; 0; 0]) as row eqn:Hrow.
  replace (INR (numel [1; 1]%nat)) with 1 by (cbn; lra).
  cbn [zip3_with data adv_1 idx_1 Rsum fold_right].
  change (Actor.beta actor_peaked) with 0.
  unfold clamped_policy_gradient_term, policy_gradient_term.
  change (Z.to_nat 1) with 1%nat.
  rewrite (clamp_probs_below (Rlt_le _ _ Hsmall)).
  pose proof (ln_increasing _ _ Hpos Hsmall) as Hln.
  split; [lra|]. intro Heq. lra.
Qed.

Lemma actor_distribution_loss_witness :
  fst (Actor.batch_update actor_232 obs_122 act_bad target_121 true) = Ok tt
  /\ exists P,
       forward (Actor.net actor_232) obs_122 = Ok P
       /\ Actor.loss_of (1 / 10) (Actor.net actor_232) obs_122 act_bad target_121 true
          = Ok (Rsum (zip_with (negated_advantage_term (1 / 10))
                               (data target_121) (rows P))
                / INR (numel [1; 2]%nat)).
Proof.
  destruct (@actor_distribution_loss idle_backend actor_232 obs_122 act_bad
              target_121 [1; 2]%nat)
    as (P & HP & _ & _ & _ & _ & Hloss & Hok & _);
    try reflexivity.
  - cbn; lia.
  - split; [exact Hok|]. exists P. split; [exact HP|exact Hloss].
Defined.

(** ** Which update calls fail *)

Section ErrorConditions.
Context {B : Backend}.

Lemma critic_update_result (c : Critic.CriticNetwork) (obs : tensor R)
    (act : any_tensor) (target : tensor R) (flag : bool) :
  fst (Critic.batch_update c obs act target flag)
  = match Critic.loss_of (Critic.num_outs c) (Critic.net c) obs act target flag with
    | Ok _ => Ok tt
    | Err e => Err e
    end.
Proof.
  pose proof (critic_update_cases c obs act target flag) as H.
  destruct (Critic.loss_of _ _ _ _ _ _) as [l|e].
  - destruct H as (c' & -> & _). reflexivity.
  - now rewrite H.
Qed.

Lemma actor_update_result (a : Actor.ActorNetwork) (obs : tensor R)
    (act : any_tensor) (adv : tensor R) (flag : bool) :
  fst (Actor.batch_update a obs act adv flag)
  = match Actor.loss_of (Actor.beta a) (Actor.net a) obs act adv flag with
    | Ok _ => Ok tt
    | Err e => Err e
    end.
Proof.
  pose proof (actor_update_cases a obs act adv flag) as H.
  destruct (Actor.loss_of _ _ _ _ _ _) as [l|e].
  - destruct H as (a' & -> & _). reflexivity.
  - now rewrite H.
Qed.

(** C6, amended. An update call fails with a dimension-mismatch error
    when the observation's last dimension is not the network's input
    dimension, or when the batch dimensions of observations, actions and
    targets (advantages) cannot be broadcast against each other; sizes
    that differ but broadcast are accepted.  With
    [action_distribution] false it fails with an out-of-range error when
    some index lies outside [0, num_outputs): in the critic before the
    shapes are compared, in the actor once the actions are known to
    broadcast against the observations.  The actor with
    [action_distribution] true does not look at the actions.  No error is
    raised when the batch dimensions agree and every index is in range. *)
Theorem update_error_conditions :
  (forall (c : Critic.CriticNetwork) obs act target flag,
      shape obs = [] \/ last (shape obs) 0%nat <> state_dim (Critic.net c) ->
      fst (Critic.batch_update c obs act target flag) = Err ShapeMismatch)
  /\ (forall (c : Critic.CriticNetwork) obs idx target bs ab tb,
      b_actor (Critic.net c) = false ->
      action_dim (Critic.net c) = Critic.num_outs c ->
      (0 < Critic.num_outs c)%nat ->
      shape obs = bs ++ [state_dim (Critic.net c)] ->
      shape idx = ab ++ [1%nat] -> wf_tensor idx ->
      shape target = tb ++ [1%nat] ->
      fst (Critic.batch_update c obs (LongT idx) target false)
      = if forallb (in_range (Critic.num_outs c)) (data idx)
        then shape_outcome (batch_broadcast bs ab tb)
        else Err IndexOutOfRange)
  /\ (forall (c : Critic.CriticNetwork) obs act target bs ab tb,
      b_actor (Critic.net c) = false ->
      action_dim (Critic.net c) = Critic.num_outs c ->
      shape obs = bs ++ [state_dim (Critic.net c)] ->
      any_shape act = ab ++ [Critic.num_outs c] ->
      shape target = tb ++ [1%nat] ->
      fst (Critic.batch_update c obs act target true)
      = shape_outcome (batch_broadcast bs ab tb))
  /\ (forall (a : Actor.ActorNetwork) obs act adv flag,
      shape obs = [] \/ last (shape obs) 0%nat <> state_dim (Actor.net a) ->
      fst (Actor.batch_update a obs act adv flag) = Err ShapeMismatch)
  /\ (forall (a : Actor.ActorNetwork) obs idx adv bs ab tb,
      b_actor (Actor.net a) = true ->
      (0 < action_dim (Actor.net a))%nat ->
      shape obs = bs ++ [state_dim (Actor.net a)] ->
      shape idx = ab ++ [1%nat] ->
      shape adv = tb ++ [1%nat] ->
      fst (Actor.batch_update a obs (LongT idx) adv false)
      = match broadcast_shapes bs ab with
        | None => Err ShapeMismatch
        | Some s =>
            if forallb (in_range (action_dim (Actor.net a))) (data idx)
            then shape_outcome (broadcast_shapes tb s)
            else Err IndexOutOfRange
        end)
  /\ (forall (a : Actor.ActorNetwork) obs act adv bs tb,
      b_actor (Actor.net a) = true ->
      (0 < action_dim (Actor.net a))%nat ->
      shape obs = bs ++ [state_dim (Actor.net a)] ->
      shape adv = tb ++ [1%nat] ->
      fst (Actor.batch_update a obs act adv true)
      = shape_outcome (broadcast_shapes tb bs))
  /\ (forall bs,
      batch_broadcast bs bs bs = Some bs /\ broadcast_shapes bs bs = Some bs).
Proof.
  split; [|split; [|split; [|split; [|split; [|split]]]]].
  - intros c obs act target flag H. rewrite critic_update_result.
    unfold Critic.loss_of. now rewrite (forward_obs_mismatch _ _ H).
  - intros c obs idx target bs ab tb Hb Hdim Hpos Hobs Hidx Hwf Htgt.
    rewrite critic_update_result.
    destruct (forward_value_ok (Critic.net c) obs bs Hb Hobs) as (rs & HQ & _).
    rewrite Hdim in HQ.
    destruct (forallb (in_range (Critic.num_outs c)) (data idx)) eqn:Hr.
    + apply (@critic_loss_outcome (Critic.num_outs c) (Critic.net c) obs (LongT idx)
               target _ false bs ab tb rs HQ
               (@q_sel_one_hot (Critic.num_outs c) idx ab Hpos Hidx Hwf Hr));
        [reflexivity|exact Htgt].
    + unfold Critic.loss_of. rewrite HQ. cbn [bind].
      now rewrite (@q_sel_out_of_range (Critic.num_outs c) idx ab Hidx Hwf Hr).
  - intros c obs act target bs ab tb Hb Hdim Hobs Hact Htgt.
    rewrite critic_update_result.
    destruct (forward_value_ok (Critic.net c) obs bs Hb Hobs) as (rs & HQ & _).
    rewrite Hdim in HQ.
    apply (@critic_loss_outcome (Critic.num_outs c) (Critic.net c) obs act
             target (float act) true bs ab tb rs HQ eq_refl); [|exact Htgt].
    destruct act as [t|t]; exact Hact.
  - intros a obs act adv flag H. rewrite actor_update_result.
    unfold Actor.loss_of. now rewrite (forward_obs_mismatch _ _ H).
  - intros a obs idx adv bs ab tb Hb Hpos Hobs Hidx Hadv.
    rewrite actor_update_result.
    destruct (forward_policy_ok (Actor.net a) obs bs Hb Hpos Hobs)
      as (ps & Hf & Hc & _).
    pose proof (@log_prob_outcome bs ab (action_dim (Actor.net a)) ps idx Hidx) as Hlp.
    destruct (broadcast_shapes bs ab) as [s|] eqn:Hbs.
    + destruct (forallb (in_range (action_dim (Actor.net a))) (data idx)).
      * destruct Hlp as (lp & Hlp & Hs).
        pose proof (@broadcast_op_outcome Rmult adv (unsqueeze_last (tmap Ropp lp))
                      tb s 1 Hadv) as Hmul.
        cbn [unsqueeze_last tmap shape] in Hmul. rewrite Hs in Hmul.
        specialize (Hmul eq_refl).
        destruct (broadcast_shapes tb s) as [s2|] eqn:Hts.
        -- destruct Hmul as (pg & Hpg & Hshape).
           rewrite (@actor_loss_outcome (Actor.beta a) (Actor.net a) obs (LongT idx)
                      adv pg false bs s2 _ ps Hf Hc); [|
             unfold Actor.pg_loss; rewrite Hlp; exact Hpg | exact Hshape].
           now rewrite (@broadcast_shapes_absorb bs ab tb s s2 Hbs Hts).
        -- unfold Actor.loss_of. rewrite Hf. cbn [bind]. rewrite Hc. cbn [bind].
           unfold Actor.pg_loss. rewrite Hlp. cbn [bind]. now rewrite Hmul.
      * unfold Actor.loss_of. rewrite Hf. cbn [bind]. rewrite Hc. cbn [bind].
        unfold Actor.pg_loss. now rewrite Hlp.
    + unfold Actor.loss_of. rewrite Hf. cbn [bind]. rewrite Hc. cbn [bind].
      unfold Actor.pg_loss. now rewrite Hlp.
  - intros a obs act adv bs tb Hb Hpos Hobs Hadv.
    rewrite actor_update_result.
    destruct (forward_policy_ok (Actor.net a) obs bs Hb Hpos Hobs)
      as (ps & Hf & Hc & _).
    apply (@actor_loss_outcome (Actor.beta a) (Actor.net a) obs act adv
             (tmap Ropp adv) true bs tb _ ps Hf Hc eq_refl Hadv).
  - intro bs. split; [apply batch_broadcast_same|apply broadcast_shapes_same].
Qed.

End ErrorConditions.

(** C6, as stated, fails: a critic update whose target holds one value for
    a batch of two examples is accepted (the target is broadcast), and so
    is an actor update in distribution mode whatever the shape of its
    actions. *)
Lemma update_accepts_inconsistent_batch :
  batch_dims_consistent obs_122 act_good target_111 = false
  /\ fst (Critic.batch_update critic_232 obs_122 act_good target_111 false) = Ok tt
  /\ batch_dims_consistent obs_122 act_7 target_121 = false
  /\ fst (Actor.batch_update actor_232 obs_122 act_7 target_121 true) = Ok tt.
Proof.
  split; [reflexivity|]. split; [reflexivity|]. split; [reflexivity|].
  rewrite actor_update_result.
  destruct (@actor_negated_advantage_loss (Actor.beta actor_232) (Actor.net actor_232)
              obs_122 act_7 target_121 [1; 2]%nat)
    as (ps & _ & _ & _ & _ & Ho & _); try reflexivity.
  - cbn; lia.
  - rewrite Ho; reflexivity.
Qed.

Lemma update_error_conditions_witness :
  fst (Critic.batch_update critic_232 obs_122 act_bad target_121 false)
    = Err IndexOutOfRange
  /\ fst (Critic.batch_update critic_232 obs_123 act_good target_121 false)
    = Err ShapeMismatch
  /\ fst (Critic.batch_update critic_232 obs_122 act_good target_111 false) = Ok tt
  /\ fst (Actor.batch_update actor_232 obs_122 act_bad target_121 false)
    = Err IndexOutOfRange
  /\ fst (Actor.batch_update actor_232 obs_122 act_good target_121 false) = Ok tt.
Proof.
  destruct (@update_error_conditions idle_backend) as (H1 & H2 & _ & _ & H5 & _).
  split; [|split; [|split; [|split]]].
  - apply (H2 critic_232 obs_122 (mkTensor [1; 2; 1]%nat [0; 5]%Z) target_121
              [1; 2]%nat [1; 2]%nat [1; 2]%nat); try reflexivity. cbn; lia.
  - apply H1. right. cbn. lia.
  - apply (H2 critic_232 obs_122 idx_good target_111
              [1; 2]%nat [1; 2]%nat [1; 1]%nat); try reflexivity. cbn; lia.
  - apply (H5 actor_232 obs_122 (mkTensor [1; 2; 1]%nat [0; 5]%Z) target_121
              [1; 2]%nat [1; 2]%nat [1; 2]%nat); try reflexivity. cbn; lia.
  - apply (H5 actor_232 obs_122 idx_good target_121
              [1; 2]%nat [1; 2]%nat [1; 2]%nat); try reflexivity. cbn; lia.
Defined.

(** * Further properties of the trainers *)

Section ArchitectureInvariant.
Context {B : Backend}.

Lemma critic_update_architecture (self : Critic.CriticNetwork) (obs : tensor R)
    (act : any_tensor) (target : tensor R) (flag : bool) :
  critic_architecture (snd (Critic.batch_update self obs act target flag))
  = critic_architecture self.
Proof.
  unfold Critic.batch_update. cbn [Critic.zero_grad Critic.num_outs Critic.net].
  destruct (Critic.loss_of _ _ obs act target flag) as [loss|e]; [|reflexivity].
  destruct (optim_step _ _ _) as [p opt]. reflexivity.
Qed.

Lemma actor_update_architecture (self : Actor.ActorNetwork) (obs : tensor R)
    (act : any_tensor) (adv : tensor R) (flag : bool) :
  actor_architecture (snd (Actor.batch_update self obs act adv flag))
  = actor_architecture self.
Proof.
  unfold Actor.batch_update. cbn [Actor.zero_grad Actor.beta Actor.net].
  destruct (Actor.loss_of _ _ obs act adv flag) as [loss|e]; [|reflexivity].
  destruct (optim_step _ _ _) as [p opt]. reflexivity.
Qed.

Lemma critic_run_architecture (calls : list Critic.call) :
  forall self : Critic.CriticNetwork,
    critic_architecture (snd (Critic.run_updates self calls))
    = critic_architecture self.
Proof.
  induction calls as [|c cs IH]; intro self; [reflexivity|].
  cbn [Critic.run_updates].
  pose proof (critic_update_architecture self (Critic.call_obs c) (Critic.call_act c)
                (Critic.call_target c) (Critic.call_distribution c)) as Hu.
  fold (Critic.update self c) in Hu.
  destruct (Critic.update self c) as [r s1]. cbn [snd] in Hu.
  specialize (IH s1). destruct (Critic.run_updates s1 cs) as [rs s2].
  cbn [snd] in *. congruence.
Qed.

Lemma actor_run_architecture (calls : list Actor.call) :
  forall self : Actor.ActorNetwork,
    actor_architecture (snd (Actor.run_updates self calls))
    = actor_architecture self.
Proof.
  induction calls as [|c cs IH]; intro self; [reflexivity|].
  cbn [Actor.run_updates].
  pose proof (actor_update_architecture self (Actor.call_obs c) (Actor.call_act c)
                (Actor.call_adv c) (Actor.call_distribution c)) as Hu.
  fold (Actor.update self c) in Hu.
  destruct (Actor.update self c) as [r s1]. cbn [snd] in Hu.
  specialize (IH s1). destruct (Actor.run_updates s1 cs) as [rs s2].
  cbn [snd] in *. congruence.
Qed.

(** X1. Whatever update calls a trainer has gone through, failed or not,
    it is still the trainer it was built as: the critic's network is in
    value mode with [critic_actions] outputs over [n_features] inputs, the
    actor's in policy mode with [actor_actions] outputs, and [num_outs],
    [cuda], [beta] and [name] are the constructor's arguments.  Updates
    only ever replace the parameters. *)
Theorem updates_keep_architecture (cname aname : String.string) (nf na : nat)
    (lr beta : R) (cuda : bool) (p0 : params)
    (ccalls : list Critic.call) (acalls : list Actor.call) :
  critic_architecture
    (snd (Critic.run_updates (Critic.init cname nf na lr cuda p0) ccalls))
  = (na, nf, na, false, cuda, cname)
  /\ actor_architecture
       (snd (Actor.run_updates (Actor.init aname nf na lr beta cuda p0) acalls))
     = (na, nf, na, true, cuda, beta, aname).
Proof.
  split.
  - now rewrite critic_run_architecture.
  - now rewrite actor_run_architecture.
Qed.

End ArchitectureInvariant.

(** ** When the forward pass is defined *)

Lemma wf_softmax_of_rows (bs : list nat) (k : nat) (rs : list (list R)) :
  length rs = numel bs -> Forall (fun r => length r = k) rs ->
  wf_tensor (softmax (of_rows bs k rs)).
Proof.
  intros Hn Hk. rewrite (softmax_of_rows _ Hn Hk). apply wf_of_rows.
  - now rewrite length_map.
  - now apply softmax_rows_length.
Qed.

(** X2. The forward pass is defined exactly on inputs of rank at least one
    whose last dimension is [state_dim]; every other input is a
    dimension-mismatch error.  When defined, the output has the input's
    leading dimensions followed by [action_dim], and holds exactly as many
    entries as that shape asks for, in both modes and even for an input
    whose own storage is too short. *)
Theorem forward_defined_iff (net : NeuralNet) (obs : tensor R) :
  (is_ok (forward net obs) = true
   <-> shape obs <> [] /\ last (shape obs) 0%nat = state_dim net)
  /\ (is_ok (forward net obs) = false -> forward net obs = Err ShapeMismatch)
  /\ (forall out, forward net obs = Ok out ->
        shape out = removelast (shape obs) ++ [action_dim net]
        /\ wf_tensor out).
Proof.
  destruct (list_eq_dec Nat.eq_dec (shape obs) []) as [Hnil|Hs].
  { rewrite (forward_obs_mismatch net obs (or_introl Hnil)). cbn [is_ok].
    split; [split; [discriminate|intros [H _]; contradiction]|].
    split; [reflexivity|discriminate]. }
  destruct (Nat.eq_dec (last (shape obs) 0%nat) (state_dim net)) as [Hl|Hl].
  - destruct (raw_scores_ok net obs Hs Hl) as (rs & Hraw & Hn & Hk).
    assert (Hf : forward net obs
                 = Ok (if b_actor net
                       then softmax (of_rows (removelast (shape obs)) (action_dim net) rs)
                       else of_rows (removelast (shape obs)) (action_dim net) rs)).
    { rewrite forward_raw, Hraw. now destruct (b_actor net). }
    rewrite Hf. cbn [is_ok]. split; [split; auto|]. split; [discriminate|].
    intros out Hout. injection Hout as <-. destruct (b_actor net).
    + split; [reflexivity|now apply wf_softmax_of_rows].
    + split; [reflexivity|now apply wf_of_rows].
  - rewrite (forward_obs_mismatch net obs (or_intror Hl)). cbn [is_ok].
    split; [split; [discriminate|intros [_ H]; contradiction]|].
    split; [reflexivity|discriminate].
Qed.

(** ** The policy's rows *)

Lemma Rsum_nonneg (row : list R) : Forall (fun p => 0 <= p) row -> 0 <= Rsum row.
Proof.
  induction 1 as [|p row Hp _ IH]; [cbn; lra|].
  change (0 <= p + Rsum row). lra.
Qed.

Lemma entry_le_Rsum (row : list R) (p : R) :
  Forall (fun q => 0 <= q) row -> In p row -> p <= Rsum row.
Proof.
  induction 1 as [|q row Hq Hrow IH]; intro Hin; [contradiction|].
  pose proof (Rsum_nonneg Hrow). change (p <= q + Rsum row).
  destruct Hin as [->|Hin].
  - lra.
  - specialize (IH Hin). lra.
Qed.

Lemma entropy_row_nonneg (row : list R) :
  is_distribution row -> 0 <= entropy_row row.
Proof.
  intros [Hnn Hsum]. unfold entropy_row.
  assert (H : Rsum (map (fun p => ln p * p) row) <= 0).
  { assert (Hle : Forall (fun p => 0 <= p <= 1) row).
    { apply Forall_forall. intros p Hp. split.
      - rewrite Forall_forall in Hnn. now apply Hnn.
      - rewrite <- Hsum. now apply entry_le_Rsum. }
    clear Hnn Hsum. induction Hle as [|p row [H0 H1] _ IH]; [cbn; lra|].
    change (ln p * p + Rsum (map (fun p => ln p * p) row) <= 0).
    assert (ln p * p <= 0).
    { destruct (Req_dec p 0) as [->|Hp0]; [lra|].
      assert (ln p <= 0).
      { destruct (Req_dec p 1) as [->|Hp1]; [rewrite ln_1; lra|].
        rewrite <- ln_1. apply Rlt_le, ln_increasing; lra. }
      nra. }
    lra. }
  lra.
Qed.

Lemma tensor_as_rows {A} (t : tensor A) (bs : list nat) (k : nat) :
  shape t = bs ++ [k] -> wf_tensor t ->
  t = of_rows bs k (rows t)
  /\ length (rows t) = numel bs
  /\ Forall (fun r => length r = k) (rows t).
Proof.
  intros Hs Hwf. destruct t as [sh d]. cbn [shape] in Hs. subst sh.
  unfold wf_tensor in Hwf. cbn [shape data] in Hwf. rewrite numel_snoc in Hwf.
  unfold rows, of_rows. cbn [shape data]. rewrite removelast_snoc, last_snoc.
  split; [now rewrite concat_chunk|]. split; [apply chunk_length|].
  now apply chunk_rows_length.
Qed.

Lemma Rsum_negated_advantage (beta : R) :
  forall (advs : list R) (ps : list (list R)),
    length advs = length ps ->
    Rsum (zip_with (negated_advantage_term beta) advs ps)
    = - Rsum advs - beta * Rsum (map entropy_row ps).
Proof.
  induction advs as [|a advs IH]; intros [|p ps] Hlen;
    try discriminate; [cbn; ring|].
  cbn [zip_with map]. cbn [length] in Hlen.
  change (negated_advantage_term beta a p
          + Rsum (zip_with (negated_advantage_term beta) advs ps)
          = - (a + Rsum advs) - beta * (entropy_row p + Rsum (map entropy_row ps))).
  rewrite IH by lia. unfold negated_advantage_term. ring.
Qed.

Lemma Rdiv_INR_nonneg (x : R) (n : nat) : 0 <= x -> 0 <= x / INR n.
Proof.
  intro Hx. destruct n as [|n].
  - cbn [INR]. rewrite Rdiv_0_r. lra.
  - apply Rmult_le_pos; [exact Hx|]. apply Rlt_le, Rinv_0_lt_compat.
    apply lt_0_INR. lia.
Qed.

Section DistributionModeTheorems.
Context {B : Backend}.

(** X4. A critic update in distribution mode (observations of shape
    (batch.., features), weights of shape (batch.., outputs), targets of
    shape (batch.., 1)): the predicted scalar of an example is the sum of
    its outputs weighted by its row of [act], and the loss recorded is the
    mean squared difference between targets and these predictions. *)
Theorem critic_weighted_update (self : Critic.CriticNetwork) (obs w target : tensor R)
    (bs : list nat) :
  b_actor (Critic.net self) = false ->
  action_dim (Critic.net self) = Critic.num_outs self ->
  shape obs = bs ++ [state_dim (Critic.net self)] ->
  shape w = bs ++ [Critic.num_outs self] -> wf_tensor w ->
  shape target = bs ++ [1%nat] -> wf_tensor target ->
  exists Q,
    forward (Critic.net self) obs = Ok Q
    /\ let pred := zip_with (fun q s => Rsum (zip_with Rmult q s)) (rows Q) (rows w) in
       let loss := Rsum (zip_with (fun t p => (t - p) ^ 2) (data target) pred)
                   / INR (numel bs) in
       length pred = numel bs
       /\ Critic.dot_prd Q w = Ok {| shape := bs ++ [1%nat]; data := pred |}
       /\ Critic.loss_of (Critic.num_outs self) (Critic.net self) obs (FloatT w)
                         target true = Ok loss
       /\ fst (Critic.batch_update self obs (FloatT w) target true) = Ok tt
       /\ Critic.losses (snd (Critic.batch_update self obs (FloatT w) target true))
          = record_loss (Critic.losses self) loss.
Proof.
  intros Hb Hdim Hobs Hw Hwf Htgt Hwt.
  destruct (forward_value_ok (Critic.net self) obs bs Hb Hobs) as (rs & HQ & Hn & Hk).
  rewrite Hdim in HQ, Hk.
  destruct (@tensor_as_rows R w bs (Critic.num_outs self) Hw Hwf) as (Hwr & Hwn & Hwk).
  set (pred := zip_with (fun q s => Rsum (zip_with Rmult q s)) rs (rows w)).
  assert (Hp : length pred = numel bs).
  { unfold pred. rewrite zip_with_length. lia. }
  assert (Hd : Critic.dot_prd (of_rows bs (Critic.num_outs self) rs) w
               = Ok {| shape := bs ++ [1%nat]; data := pred |}).
  { rewrite Hwr at 1. now apply dot_prd_rows. }
  assert (Hloss : Critic.loss_of (Critic.num_outs self) (Critic.net self) obs
                    (FloatT w) target true
                  = Ok (Rsum (zip_with (fun t p => (t - p) ^ 2) (data target) pred)
                        / INR (numel bs))).
  { unfold Critic.loss_of. rewrite HQ. cbn [bind Critic.q_sel negb float].
    rewrite Hd. cbn [bind]. now apply mse_loss_same. }
  exists (of_rows bs (Critic.num_outs self) rs).
  rewrite (rows_of_rows _ Hn Hk). cbn zeta. fold pred.
  split; [exact HQ|]. split; [exact Hp|]. split; [exact Hd|]. split; [exact Hloss|].
  pose proof (critic_update_cases self obs (FloatT w) target true) as Hc.
  rewrite Hloss in Hc. destruct Hc as (self' & Hu & Hl & _). rewrite Hu. auto.
Qed.

End DistributionModeTheorems.

(** X5. In distribution mode the actor's loss is minus the mean advantage
    minus beta times the mean entropy of the policy's rows.  The policy
    enters through the entropy alone: the mean entropy is never negative,
    and with beta = 0 the loss is minus the mean advantage for every
    choice of the network's parameters, so that neither the actions nor
    the advantages can steer the parameters. *)
Theorem actor_distribution_loss_splits (net : NeuralNet) (beta : R) (obs : tensor R)
    (act : any_tensor) (adv : tensor R) (bs : list nat) :
  b_actor net = true ->
  (0 < action_dim net)%nat ->
  shape obs = bs ++ [state_dim net] ->
  shape adv = bs ++ [1%nat] -> wf_tensor adv ->
  forall p : params,
    exists P,
      forward (with_theta net p) obs = Ok P
      /\ 0 <= Rsum (map entropy_row (rows P)) / INR (numel bs)
      /\ Actor.loss_of beta (with_theta net p) obs act adv true
         = Ok (- (Rsum (data adv) / INR (numel bs))
               - beta * (Rsum (map entropy_row (rows P)) / INR (numel bs)))
      /\ Actor.loss_of 0 (with_theta net p) obs act adv true
         = Ok (- (Rsum (data adv) / INR (numel bs))).
Proof.
  intros Hb Hpos Hobs Hadv Hwa p.
  assert (Hla : length (data adv) = numel bs).
  { unfold wf_tensor in Hwa. rewrite Hwa, Hadv, numel_snoc. lia. }
  assert (Hsplit : forall b,
            exists ps,
              forward (with_theta net p) obs = Ok (of_rows bs (action_dim net) ps)
              /\ length ps = numel bs
              /\ Forall (fun r => length r = action_dim net) ps
              /\ Forall is_distribution ps
              /\ Actor.loss_of b (with_theta net p) obs act adv true
                 = Ok (- (Rsum (data adv) / INR (numel bs))
                       - b * (Rsum (map entropy_row ps) / INR (numel bs)))).
  { intro b.
    destruct (@actor_negated_advantage_loss b (with_theta net p) obs act adv bs
                Hb Hpos Hobs) as (ps & Hf & Hn & Hk & Hd & Hloss & _).
    exists ps. repeat (split; [assumption|]).
    cbn [with_theta action_dim] in Hloss. rewrite (Hloss Hadv Hwa).
    rewrite Rsum_negated_advantage by congruence. f_equal.
    unfold Rdiv. ring. }
  destruct (Hsplit beta) as (ps & Hf & Hn & Hk & Hd & Hloss).
  destruct (Hsplit 0) as (ps0 & Hf0 & _ & _ & _ & Hloss0).
  exists (of_rows bs (action_dim net) ps). rewrite (rows_of_rows _ Hn Hk).
  split; [exact Hf|]. split; [|split; [exact Hloss|]].
  - apply Rdiv_INR_nonneg. apply Rsum_nonneg.
    apply Forall_forall. intros h Hh. apply in_map_iff in Hh as (r & <- & Hr).
    apply entropy_row_nonneg. rewrite Forall_forall in Hd. now apply Hd.
  - rewrite Hloss0. f_equal. ring.
Qed.

(** ** Equivalent ways of passing the actions *)

Lemma Rtrunc_IZR (z : Z) : Rtrunc (IZR z) = z.
Proof.
  assert (Hint : forall k, Int_part (IZR k) = k).
  { intro k. symmetry. apply Int_part_spec. lra. }
  unfold Rtrunc. destruct (Rle_dec 0 (IZR z)) as [_|_].
  - apply Hint.
  - rewrite <- opp_IZR, Hint. lia.
Qed.

Lemma is_integral_IZR (z : Z) : is_integral (IZR z) = true.
Proof.
  unfold is_integral. rewrite Rtrunc_IZR.
  now destruct (Req_dec_T (IZR z) (IZR z)).
Qed.

Lemma squeeze_last_tmap {A C} (f : A -> C) (t : tensor A) :
  squeeze_last (tmap f t) = tmap f (squeeze_last t).
Proof.
  destruct t as [sh d]. unfold squeeze_last, tmap. cbn [shape data].
  destruct sh as [|x sh]; [reflexivity|].
  now destruct (Nat.eqb (last (x :: sh) 0%nat) 1).
Qed.

Lemma long_of_float_indices (idx : tensor Z) :
  long (any_squeeze_last (FloatT (tmap IZR idx))) = long (any_squeeze_last (LongT idx)).
Proof.
  cbn [any_squeeze_last long]. rewrite squeeze_last_tmap.
  destruct (squeeze_last idx) as [sh d]. unfold tmap. cbn [shape data]. f_equal.
  rewrite map_map. rewrite <- (map_id d) at 2. apply map_ext. apply Rtrunc_IZR.
Qed.

Lemma forallb_float_indices (n : nat) (l : list Z) :
  forallb (fun r => is_integral r && in_range n (Rtrunc r)) (map IZR l)
  = forallb (in_range n) l.
Proof.
  induction l as [|k l IH]; [reflexivity|].
  cbn [map forallb]. now rewrite is_integral_IZR, Rtrunc_IZR, IH.
Qed.

Lemma log_prob_of_float_indices (d : Categorical) (idx : tensor Z) :
  log_prob d (any_squeeze_last (FloatT (tmap IZR idx)))
  = log_prob d (any_squeeze_last (LongT idx)).
Proof.
  unfold log_prob. rewrite long_of_float_indices.
  cbn [any_squeeze_last any_shape in_support]. rewrite squeeze_last_tmap.
  cbn [tmap shape data]. now rewrite forallb_float_indices.
Qed.

Lemma squeeze_last_again {A} (t : tensor A) (bs : list nat) :
  shape t = bs ++ [1%nat] -> last bs 0%nat <> 1%nat ->
  squeeze_last (squeeze_last t) = squeeze_last t.
Proof.
  intros Hs Hl. rewrite (squeeze_last_snoc1 t bs Hs).
  unfold squeeze_last. cbn [shape data]. destruct bs as [|b bs]; [reflexivity|].
  apply Nat.eqb_neq in Hl. now rewrite Hl.
Qed.

Lemma any_squeeze_last_again (act : any_tensor) (bs : list nat) :
  any_shape act = bs ++ [1%nat] -> last bs 0%nat <> 1%nat ->
  any_squeeze_last (any_squeeze_last act) = any_squeeze_last act.
Proof.
  intros Hs Hl. destruct act as [t|t]; cbn [any_squeeze_last any_shape] in *;
    f_equal; now apply squeeze_last_again with bs.
Qed.

Section ActionEncodings.
Context {B : Backend}.

Lemma critic_update_ext (self : Critic.CriticNetwork) (obs : tensor R)
    (act1 act2 : any_tensor) (target : tensor R) (f1 f2 : bool) :
  (forall nn, Critic.loss_of (Critic.num_outs self) nn obs act1 target f1
              = Critic.loss_of (Critic.num_outs self) nn obs act2 target f2) ->
  Critic.batch_update self obs act1 target f1
  = Critic.batch_update self obs act2 target f2.
Proof.
  intro H. unfold Critic.batch_update.
  cbn [Critic.zero_grad Critic.num_outs Critic.net]. rewrite H.
  replace (fun p => Critic.loss_of (Critic.num_outs self)
                      (with_theta (Critic.net self) p) obs act1 target f1)
    with (fun p => Critic.loss_of (Critic.num_outs self)
                      (with_theta (Critic.net self) p) obs act2 target f2);
    [reflexivity|].
  apply functional_extensionality. intro p. symmetry. apply H.
Qed.

Lemma actor_update_ext (self : Actor.ActorNetwork) (obs : tensor R)
    (act1 act2 : any_tensor) (adv : tensor R) (f1 f2 : bool) :
  (forall nn, Actor.loss_of (Actor.beta self) nn obs act1 adv f1
              = Actor.loss_of (Actor.beta self) nn obs act2 adv f2) ->
  Actor.batch_update self obs act1 adv f1 = Actor.batch_update self obs act2 adv f2.
Proof.
  intro H. unfold Actor.batch_update.
  cbn [Actor.zero_grad Actor.beta Actor.net]. rewrite H.
  replace (fun p => Actor.loss_of (Actor.beta self)
                      (with_theta (Actor.net self) p) obs act1 adv f1)
    with (fun p => Actor.loss_of (Actor.beta self)
                      (with_theta (Actor.net self) p) obs act2 adv f2);
    [reflexivity|].
  apply functional_extensionality. intro p. symmetry. apply H.
Qed.

(** X6. For the critic, an update on action indices is the update in
    distribution mode on their one-hot rows: with indices of shape
    (batch.., 1), all within [0, num_outs), both calls end in the same
    result and the same trainer, whatever the observations and targets
    are. *)
Theorem critic_indices_as_one_hot_weights (self : Critic.CriticNetwork)
    (obs : tensor R) (idx : tensor Z) (target : tensor R) (bs : list nat) :
  (0 < Critic.num_outs self)%nat ->
  shape idx = bs ++ [1%nat] -> wf_tensor idx ->
  forallb (in_range (Critic.num_outs self)) (data idx) = true ->
  Critic.batch_update self obs (LongT idx) target false
  = Critic.batch_update self obs
      (FloatT (of_rows bs (Critic.num_outs self)
                 (map (fun k => map IZR (one_hot_row (Critic.num_outs self) k))
                      (data idx))))
      target true.
Proof.
  intros Hpos Hidx Hwf Hr. apply critic_update_ext. intro nn.
  unfold Critic.loss_of.
  rewrite (@q_sel_one_hot (Critic.num_outs self) idx bs Hpos Hidx Hwf Hr).
  reflexivity.
Qed.

(** X7. Action indices may come as a float tensor holding whole numbers:
    an update of either trainer on such a tensor is the update on the
    long tensor of the same indices, in range or not. *)
Theorem float_indices_as_long (c : Critic.CriticNetwork) (a : Actor.ActorNetwork)
    (obs : tensor R) (idx : tensor Z) (target adv : tensor R) :
  Critic.batch_update c obs (FloatT (tmap IZR idx)) target false
  = Critic.batch_update c obs (LongT idx) target false
  /\ Actor.batch_update a obs (FloatT (tmap IZR idx)) adv false
     = Actor.batch_update a obs (LongT idx) adv false.
Proof.
  split.
  - apply critic_update_ext. intro nn. unfold Critic.loss_of, Critic.q_sel.
    cbn [negb]. now rewrite long_of_float_indices.
  - apply actor_update_ext. intro nn. unfold Actor.loss_of, Actor.pg_loss.
    destruct (forward nn obs) as [P|e]; [|reflexivity]. cbn [bind].
    destruct (Categorical_init P) as [d|e]; [|reflexivity]. cbn [bind].
    now rewrite log_prob_of_float_indices.
Qed.

(** X8. The trailing dimension of size 1 on the actions is optional as
    long as the last batch dimension is not itself 1: an update on
    actions of shape (batch.., 1) is the update on the same actions
    reshaped to (batch..), the shape [sample_action] returns.  (When the
    last batch dimension is 1, [squeeze(-1)] would remove it instead.) *)
Theorem trailing_singleton_optional (c : Critic.CriticNetwork) (a : Actor.ActorNetwork)
    (obs : tensor R) (act : any_tensor) (target adv : tensor R) (bs : list nat) :
  any_shape act = bs ++ [1%nat] ->
  last bs 0%nat <> 1%nat ->
  any_shape (any_squeeze_last act) = bs
  /\ Critic.batch_update c obs (any_squeeze_last act) target false
     = Critic.batch_update c obs act target false
  /\ Actor.batch_update a obs (any_squeeze_last act) adv false
     = Actor.batch_update a obs act adv false.
Proof.
  intros Hs Hl. pose proof (any_squeeze_last_again act bs Hs Hl) as Hsq.
  split; [|split].
  - destruct act as [t|t]; cbn [any_squeeze_last any_shape] in *;
      now rewrite (squeeze_last_snoc1 t bs Hs).
  - apply critic_update_ext. intro nn. unfold Critic.loss_of, Critic.q_sel.
    cbn [negb]. now rewrite Hsq.
  - apply actor_update_ext. intro nn. unfold Actor.loss_of, Actor.pg_loss.
    now rewrite Hsq.
Qed.

End ActionEncodings.

(** ** Sampling, then updating *)

Section SampleThenUpdate.
Context {B : Backend}.

Lemma sample_rows_in_range (n : nat) (rs : list (list R)) :
  (forall g row, row <> [] -> (fst (multinomial g row) < length row)%nat) ->
  (0 < n)%nat ->
  Forall (fun r => length r = n) rs ->
  forall g : generator,
    forallb (in_range n) (fst (Actor.sample_rows g rs)) = true.
Proof.
  intros Hm Hpos Hk. induction Hk as [|r rs Hr _ IH]; intro g; [reflexivity|].
  cbn [Actor.sample_rows]. pose proof (Hm g r) as Hd.
  destruct (multinomial g r) as [k g']. specialize (IH g').
  destruct (Actor.sample_rows g' rs) as [ks g'']. cbn [fst forallb] in *.
  rewrite IH, andb_true_r. unfold in_range.
  assert (k < n)%nat by (rewrite <- Hr; apply Hd; destruct r; [simpl in Hr; lia|discriminate]).
  apply andb_true_intro. split; [apply Z.leb_le|apply Z.ltb_lt]; lia.
Qed.

(** X9. If every draw of the generator is an index into its row, the
    actions [sample_action] returns for a batch are one valid action per
    example, and with the trailing dimension appended they make an update
    that succeeds: of the actor on the same observations, and of a critic
    with the same numbers of inputs and outputs. *)
Theorem sampled_actions_update (a : Actor.ActorNetwork) (c : Critic.CriticNetwork)
    (g : generator) (obs : tensor R) (grad : bool) (adv target : tensor R)
    (bs : list nat) :
  (forall g row, row <> [] -> (fst (multinomial g row) < length row)%nat) ->
  b_actor (Actor.net a) = true ->
  (0 < action_dim (Actor.net a))%nat ->
  shape obs = bs ++ [state_dim (Actor.net a)] ->
  shape adv = bs ++ [1%nat] -> wf_tensor adv ->
  shape target = bs ++ [1%nat] -> wf_tensor target ->
  b_actor (Critic.net c) = false ->
  state_dim (Critic.net c) = state_dim (Actor.net a) ->
  action_dim (Critic.net c) = Critic.num_outs c ->
  Critic.num_outs c = action_dim (Actor.net a) ->
  exists act,
    fst (Actor.sample_action a g obs grad) = Ok act
    /\ shape act = bs
    /\ wf_tensor act
    /\ forallb (in_range (action_dim (Actor.net a))) (data act) = true
    /\ fst (Actor.batch_update a obs (LongT (unsqueeze_last act)) adv false) = Ok tt
    /\ fst (Critic.batch_update c obs (LongT (unsqueeze_last act)) target false) = Ok tt.
Proof.
  intros Hm Hb Hpos Hobs Hadv Hwa Htgt Hwt Hcb Hcs Hcd Hcn.
  destruct (forward_policy_ok (Actor.net a) obs bs Hb Hpos Hobs)
    as (ps & Hf & Hc & Hn & Hk & _).
  pose proof (sample_rows_length ps g) as Hlen.
  pose proof (sample_rows_in_range Hm Hpos Hk g) as Hin.
  assert (Hs : exists ks g',
             Actor.sample_action a g obs grad
             = (Ok {| shape := bs; data := ks |}, g')
             /\ ks = fst (Actor.sample_rows g ps)).
  { unfold Actor.sample_action.
    replace (if negb grad then forward (Actor.net a) obs
             else forward (Actor.net a) obs)
      with (forward (Actor.net a) obs) by now destruct grad.
    rewrite Hf. cbn [bind]. rewrite Hc. unfold Actor.sample, batch_shape.
    cbn [probs]. rewrite (rows_of_rows _ Hn Hk). cbn [of_rows shape].
    rewrite removelast_snoc.
    destruct (Actor.sample_rows g ps) as [ks g']. now exists ks, g'. }
  destruct Hs as (ks & g' & Hs & ->).
  set (act := {| shape := bs; data := fst (Actor.sample_rows g ps) |}) in *.
  assert (Hwact : wf_tensor act).
  { unfold wf_tensor, act. cbn [shape data]. now rewrite Hlen. }
  assert (Hwu : wf_tensor (unsqueeze_last act)).
  { unfold wf_tensor in *. cbn [unsqueeze_last shape data] in *.
    rewrite numel_snoc. lia. }
  exists act. rewrite Hs. cbn [fst].
  split; [reflexivity|]. split; [reflexivity|]. split; [exact Hwact|].
  split; [exact Hin|]. split.
  - rewrite actor_update_result.
    destruct (@actor_indices_loss (Actor.beta a) (Actor.net a) obs (unsqueeze_last act)
                adv bs Hb Hpos Hobs eq_refl Hwu Hin) as (qs & _ & _ & _ & _ & _ & Ho & _).
    now rewrite (Ho Hadv Hwa).
  - rewrite critic_update_result. rewrite <- Hcs in Hobs. rewrite <- Hcn in Hin, Hpos.
    destruct (@critic_indices_loss (Critic.net c) (Critic.num_outs c) obs
                (unsqueeze_last act) target bs Hcb Hcd Hpos Hobs eq_refl Hwu Hin)
      as (qs & _ & _ & _ & _ & Ho & _).
    now rewrite (Ho Htgt Hwt).
Qed.

End SampleThenUpdate.

(** ** The further properties on the small inputs *)

Lemma critic_weighted_update_witness :
  fst (Critic.batch_update critic_232 obs_122 (FloatT w_123) target_121 true) = Ok tt.
Proof.
  destruct (@critic_weighted_update idle_backend critic_232 obs_122 w_123 target_121
              [1; 2]%nat) as (Q & _ & _ & _ & _ & Hok & _);
    [reflexivity.. | exact Hok].
Defined.

Lemma actor_distribution_loss_splits_witness :
  Actor.loss_of 0 (with_theta (Actor.net actor_232) (zero_params 2 3)) obs_122
                act_7 target_121 true
  = Ok (- (Rsum (data target_121) / INR (numel [1; 2]%nat))).
Proof.
  destruct (@actor_distribution_loss_splits (Actor.net actor_232) 0 obs_122 act_7
              target_121 [1; 2]%nat) with (p := zero_params 2 3)
    as (P & _ & _ & _ & H0); try reflexivity.
  - cbn; lia.
  - exact H0.
Defined.

Lemma critic_indices_as_one_hot_weights_witness :
  Critic.batch_update critic_232 obs_122 act_good target_121 false
  = Critic.batch_update critic_232 obs_122
      (FloatT (of_rows [1; 2]%nat 3
                 (map (fun k => map IZR (one_hot_row 3 k)) (data idx_good))))
      target_121 true.
Proof.
  apply (@critic_indices_as_one_hot_weights idle_backend critic_232 obs_122 idx_good
           target_121 [1; 2]%nat); try reflexivity.
  cbn; lia.
Defined.

Lemma trailing_singleton_optional_witness :
  any_shape (any_squeeze_last act_good) = [1; 2]%nat
  /\ Critic.batch_update critic_232 obs_122 (any_squeeze_last act_good) target_121 false
     = Critic.batch_update critic_232 obs_122 act_good target_121 false
  /\ Actor.batch_update actor_232 obs_122 (any_squeeze_last act_good) target_121 false
     = Actor.batch_update actor_232 obs_122 act_good target_121 false.
Proof.
  apply (@trailing_singleton_optional idle_backend critic_232 actor_232 obs_122
           act_good target_121 target_121 [1; 2]%nat).
  - reflexivity.
  - cbn; lia.
Defined.

Lemma sampled_actions_update_witness :
  exists act,
    fst (Actor.sample_action actor_232 tt obs_122 false) = Ok act
    /\ shape act = [1; 2]%nat
    /\ fst (Actor.batch_update actor_232 obs_122 (LongT (unsqueeze_last act))
              target_121 false) = Ok tt
    /\ fst (Critic.batch_update critic_232 obs_122 (LongT (unsqueeze_last act))
              target_121 false) = Ok tt.
Proof.
  destruct (@sampled_actions_update idle_backend actor_232 critic_232 tt obs_122 false
              target_121 target_121 [1; 2]%nat)
    as (act & Hs & Hsh & _ & _ & Ha & Hc); try reflexivity.
  - intros g row Hrow. cbn. destruct row; [congruence|cbn; lia].
  - cbn; lia.
  - exists act. auto.
Defined.

(** ** A target of one value *)

Lemma numel_ones (k : nat) : numel (repeat 1%nat k) = 1%nat.
Proof. induction k as [|k IH]; [reflexivity|]. cbn [repeat numel fold_right] in *. fold (numel (repeat 1%nat k)). lia. Qed.

Lemma broadcast_rev_ones (k : nat) :
  forall s : list nat, (k <= length s)%nat -> broadcast_rev (repeat 1%nat k) s = Some s.
Proof.
  induction k as [|k IH]; intros s Hk; [reflexivity|].
  destruct s as [|y s]; [cbn in Hk; lia|].
  cbn [repeat broadcast_rev]. cbn [length] in Hk. rewrite IH by lia.
  destruct (Nat.eqb_spec 1 y) as [<-|_]; reflexivity.
Qed.

Lemma broadcast_shapes_ones (k : nat) (s : list nat) :
  (k <= length s)%nat -> broadcast_shapes (repeat 1%nat k) s = Some s.
Proof.
  intro Hk. unfold broadcast_shapes. rewrite rev_repeat, broadcast_rev_ones.
  - cbn. now rewrite rev_involutive.
  - now rewrite length_rev.
Qed.

Lemma pad_shape_ones (k n : nat) :
  (k <= n)%nat -> pad_shape n (repeat 1%nat k) = repeat 1%nat n.
Proof.
  intro Hk. unfold pad_shape. rewrite repeat_length, <- repeat_app. f_equal. lia.
Qed.

Lemma concat_repeat_repeat {A} (x : A) (m y : nat) :
  concat (repeat (repeat x m) y) = repeat x (y * m).
Proof.
  induction y as [|y IH]; [reflexivity|].
  cbn [repeat concat]. rewrite IH, <- repeat_app. reflexivity.
Qed.

Lemma expand_data_ones {A} (x : A) :
  forall s : list nat, expand_data (repeat 1%nat (length s)) s [x] = repeat x (numel s).
Proof.
  induction s as [|y s IH]; [reflexivity|].
  cbn [length repeat expand_data]. rewrite numel_ones.
  cbn [chunk firstn map concat]. rewrite IH, app_nil_r.
  change (numel (y :: s)) with (y * numel s)%nat.
  destruct (Nat.eqb_spec 1 y) as [<-|_].
  - f_equal. lia.
  - apply concat_repeat_repeat.
Qed.

Lemma zip_with_repeat_l {A C D} (f : A -> C -> D) (x : A) (l : list C) :
  zip_with f (repeat x (length l)) l = map (f x) l.
Proof. induction l as [|c l IH]; [reflexivity|]. cbn. now rewrite IH. Qed.

Lemma mse_loss_single_target (target : tensor R) (t : R) (k : nat)
    (s : list nat) (ps : list R) :
  shape target = repeat 1%nat k -> data target = [t] ->
  (k <= length s)%nat -> length ps = numel s ->
  mse_loss target {| shape := s; data := ps |}
  = Ok (Rsum (map (fun p => (t - p) ^ 2) ps) / INR (numel s)).
Proof.
  intros Hs Hd Hk Hp. unfold mse_loss, broadcast_op. cbn [shape].
  rewrite Hs, (broadcast_shapes_ones _ Hk). unfold expand. cbn [data shape bind].
  rewrite Hs, Hd, (pad_shape_ones Hk), expand_data_ones, pad_shape_same.
  rewrite (expand_data_same s ps Hp), <- Hp, zip_with_repeat_l.
  unfold tmean. cbn [data]. now rewrite length_map.
Qed.

Section SingleTarget.
Context {B : Backend}.

(** X10. A target of one value, in a tensor whose dimensions are all 1 and
    no more than those of the predictions, is not refused by a critic
    update on well-shaped observations and indices: it is compared with
    the prediction of every example, and the loss recorded is the mean of
    the squared differences to that one value. *)
Theorem critic_single_target (self : Critic.CriticNetwork) (obs : tensor R)
    (idx : tensor Z) (target : tensor R) (t : R) (k : nat) (bs : list nat) :
  b_actor (Critic.net self) = false ->
  action_dim (Critic.net self) = Critic.num_outs self ->
  (0 < Critic.num_outs self)%nat ->
  shape obs = bs ++ [state_dim (Critic.net self)] ->
  shape idx = bs ++ [1%nat] -> wf_tensor idx ->
  forallb (in_range (Critic.num_outs self)) (data idx) = true ->
  shape target = repeat 1%nat k -> data target = [t] ->
  (k <= length bs + 1)%nat ->
  exists Q,
    forward (Critic.net self) obs = Ok Q
    /\ let pred := zip_with (fun row j => nth (Z.to_nat j) row 0) (rows Q) (data idx) in
       let loss := Rsum (map (fun p => (t - p) ^ 2) pred) / INR (numel bs) in
       length pred = numel bs
       /\ Critic.loss_of (Critic.num_outs self) (Critic.net self) obs (LongT idx)
                         target false = Ok loss
       /\ fst (Critic.batch_update self obs (LongT idx) target false) = Ok tt
       /\ Critic.losses (snd (Critic.batch_update self obs (LongT idx) target false))
          = record_loss (Critic.losses self) loss.
Proof.
  intros Hb Hdim Hpos Hobs Hidx Hwf Hr Hts Htd Hk.
  destruct (@critic_indices_loss (Critic.net self) (Critic.num_outs self) obs idx
              target bs Hb Hdim Hpos Hobs Hidx Hwf Hr) as (rs & HQ & Hn & Hkk & Hd & _).
  assert (Hlen : length (data idx) = numel bs).
  { unfold wf_tensor in Hwf. rewrite Hwf, Hidx, numel_snoc. lia. }
  set (pred := zip_with (fun row j => nth (Z.to_nat j) row 0) rs (data idx)) in *.
  assert (Hp : length pred = numel bs).
  { unfold pred. rewrite zip_with_length. lia. }
  assert (Hloss : Critic.loss_of (Critic.num_outs self) (Critic.net self) obs
                    (LongT idx) target false
                  = Ok (Rsum (map (fun p => (t - p) ^ 2) pred) / INR (numel bs))).
  { unfold Critic.loss_of. rewrite HQ. cbn [bind].
    unfold bind in Hd. unfold bind at 1.
    destruct (Critic.q_sel (Critic.num_outs self) (LongT idx) false) as [q|e];
      [|discriminate].
    unfold bind at 1. rewrite Hd.
    rewrite (@mse_loss_single_target target t k (bs ++ [1%nat]) pred Hts Htd).
    - now rewrite numel_snoc, Nat.mul_1_r.
    - rewrite length_app. cbn [length]. lia.
    - rewrite numel_snoc. lia. }
  exists (of_rows bs (Critic.num_outs self) rs).
  rewrite (rows_of_rows _ Hn Hkk). cbn zeta. fold pred.
  split; [exact HQ|]. split; [exact Hp|]. split; [exact Hloss|].
  pose proof (critic_update_cases self obs (LongT idx) target false) as Hc.
  rewrite Hloss in Hc. destruct Hc as (self' & Hu & Hl & _). rewrite Hu. auto.
Qed.

End SingleTarget.

Lemma critic_single_target_witness :
  fst (Critic.batch_update critic_232 obs_122 act_good target_1 false) = Ok tt.
Proof.
  destruct (@critic_single_target idle_backend critic_232 obs_122 idx_good target_1
              5 1 [1; 2]%nat) as (Q & _ & _ & _ & Hok & _);
    [reflexivity | reflexivity | cbn; lia | reflexivity | reflexivity | reflexivity
    | reflexivity | reflexivity | reflexivity | cbn; lia | exact Hok].
Defined.
